(** * ElderHearingFreqLossSim: the audio pipeline of [app.py]

    The core of the simulator is two functions of [src/app.py]:
    [butter_lowpass_filter] (lines 62-71) and [process_audio] (lines 73-86).
    Samples are IEEE-754 binary64 numbers, embedded as Rocq's primitive
    floats; a buffer (a one-dimensional NumPy array) is a [list float].
    Python exceptions are made explicit by the [result] type.

    Every float32 sample and every Python [int] below 2^53 is a binary64
    number, and magnitude, maximum and comparison are exact, so the
    arguments are taken as binary64 throughout; the application passes
    one-dimensional (mono) arrays.

    The two SciPy entry points the code calls, [scipy.signal.butter] and
    [scipy.signal.lfilter], are parameters of the pipeline: every statement
    below names the part of their documented behaviour it relies on.  The
    NumPy reductions and [librosa.util.normalize] are small enough to be
    written out.

    Around the core, [get_default_sample_path] (lines 88-94) and the parts
    of [main] that choose the cutoff (lines 145-158) and keep the result in
    [st.session_state] (lines 168-236) are modelled as well; the widgets'
    values, the file system and the audio codecs are inputs of the model. *)

From Stdlib Require Import ZArith List Bool Lia Floats.
From Stdlib Require String.
Import String.StringSyntax.
Import ListNotations.

Local Open Scope float_scope.
Set Warnings "-inexact-float".

(** Python's [x >= y] on floats (false as soon as one side is NaN). *)
Definition geb (x y : float) : bool := y <=? x.
Infix ">=?" := geb (at level 70, no associativity) : float_scope.

(** ** Python results and exceptions *)

Inductive exn : Set :=
| ZeroDivisionError   (* float division by zero *)
| ValueError          (* NumPy / SciPy argument errors *)
| ParameterError.     (* librosa.util.exceptions.ParameterError *)

Inductive result (A : Type) : Type :=
| Ok (v : A)
| Raise (e : exn).

Arguments Ok {A} v.
Arguments Raise {A} e.

Definition bind {A B : Type} (r : result A) (k : A -> result B) : result B :=
  match r with
  | Ok v => k v
  | Raise e => Raise e
  end.

Notation "x <- r ;; k" := (bind r (fun x => k))
  (at level 61, r at next level, right associativity).

Definition returns {A : Type} (r : result A) : Prop := exists v, r = Ok v.

(** Python's [x / y] on floats: a zero divisor (of either sign) raises. *)
Definition truediv (x y : float) : result float :=
  if y =? 0 then Raise ZeroDivisionError else Ok (x / y).

Definition buffer := list float.

(** ** NumPy *)

Module np.

Definition zeros (n : nat) : buffer := repeat 0 n.

Definition abs (a : buffer) : buffer := map PrimFloat.abs a.

Definition isfinite (x : float) : bool := is_finite x.

(** [np.array_equal]: same shape and [==] on every pair of samples (so the
    two zeros are equal, and a NaN equals nothing). *)
Definition array_equal (a b : buffer) : bool :=
  Nat.eqb (length a) (length b) &&
  forallb (fun p => fst p =? snd p) (combine a b).

(** One step of the [maximum] reduction: a NaN on either side wins. *)
Definition maximum (acc x : float) : float :=
  if is_nan acc then acc else if x <? acc then acc else x.

(** [np.max] of a one-dimensional array: the reduction has no identity,
    so a zero-size array raises [ValueError]. *)
Definition max (a : buffer) : result float :=
  match a with
  | [] => Raise ValueError
  | x :: rest => Ok (fold_left maximum rest x)
  end.

End np.

(** ** librosa *)

Module librosa.

(** [librosa.util.tiny] for float64: the smallest positive normal number. *)
Definition tiny : float := 0x1p-1022.

(** [librosa.util.normalize(S)] with its defaults ([norm=np.inf], [axis=0],
    [threshold=None], [fill=None]): non-finite input is rejected, the norm
    is the peak magnitude, and a norm below [tiny] is replaced by 1 so that
    the buffer is left as it is. *)
Definition normalize (S : buffer) : result buffer :=
  if negb (forallb np.isfinite S) then Raise ParameterError
  else
    length <- np.max (np.abs S) ;;
    let length := if length <? tiny then 1 else length in
    Ok (map (fun s => s / length) S).

End librosa.

(** ** The pipeline *)

(** Filter coefficients as SciPy returns them for [output='ba']. *)
Record coeffs : Type := BA { num : list float; den : list float }.

Definition default_order : Z := 5.

Section Pipeline.

(** [butter order Wn] stands for [butter(order, Wn, btype='low', analog=False)]
    and [lfilter b a x] for [lfilter(b, a, x)]. *)
Variable butter : Z -> float -> result coeffs.
Variable lfilter : list float -> list float -> buffer -> result buffer.

(** [app.py], lines 62-71. *)
Definition butter_lowpass_filter
    (data : buffer) (cutoff fs : float) (order : Z) : result buffer :=
  let nyq := 0.5 * fs in
  normal_cutoff <- truediv cutoff nyq ;;
  let normal_cutoff := if normal_cutoff >=? 1 then 0.99 else normal_cutoff in
  ba <- butter order normal_cutoff ;;
  lfilter (num ba) (den ba) data.

(** The automatic gain compensation, lines 82-86 of [process_audio]. *)
Definition gain_compensation (data filtered_data : buffer) : result buffer :=
  max_val <- np.max (np.abs data) ;;
  if 0 <? max_val then
    normalized <- librosa.normalize filtered_data ;;
    Ok (map (fun v => v * max_val) normalized)
  else Ok filtered_data.

(** [app.py], lines 73-86 (the body under the cache decorator). *)
Definition process_audio (data : buffer) (fs cutoff_freq : float) : result buffer :=
  filtered_data <- butter_lowpass_filter data cutoff_freq fs default_order ;;
  gain_compensation data filtered_data.

End Pipeline.

(** ** The cache decorator

    [process_audio] is wrapped by [st.cache_data]: the arguments are hashed
    to a key, a stored value under that key is returned without running the
    body, and a value the body returns is stored under the key.  An
    exception leaves the cache as it was. *)

Section CacheData.

Variables (Key Args Value : Type).
Variable key_eq_dec : forall k k' : Key, {k = k'} + {k <> k'}.
Variable hash : Args -> Key.
Variable body : Args -> result Value.

Definition cache : Type := list (Key * Value).

Fixpoint lookup (k : Key) (c : cache) : option Value :=
  match c with
  | [] => None
  | (k', v) :: c' => if key_eq_dec k k' then Some v else lookup k c'
  end.

Definition cached_call (c : cache) (args : Args) : result Value * cache :=
  match lookup (hash args) c with
  | Some v => (Ok v, c)
  | None =>
      match body args with
      | Ok v => (Ok v, (hash args, v) :: c)
      | Raise e => (Raise e, c)
      end
  end.

End CacheData.

Arguments lookup {Key Value} key_eq_dec k c.
Arguments cached_call {Key Args Value} key_eq_dec hash body c args.

Section CachedPipeline.

Variable butter : Z -> float -> result coeffs.
Variable lfilter : list float -> list float -> buffer -> result buffer.
Variable Key : Type.
Variable key_eq_dec : forall k k' : Key, {k = k'} + {k <> k'}.
Variable hash : buffer * float * float -> Key.


End CachedPipeline.

(** ** The part of SciPy's behaviour the pipeline relies on

    Each property is a statement about one of the two parameters. *)

Section SciPyContract.

Variable butter : Z -> float -> result coeffs.
Variable lfilter : list float -> list float -> buffer -> result buffer.

(** A digital design rejects a critical frequency outside [0 < Wn < 1]. *)
Definition butter_rejects : Prop :=
  forall N Wn, ((Wn <=? 0) || (Wn >=? 1)) = true -> butter N Wn = Raise ValueError.

(** Inside the range a design of positive order is returned. *)
Definition butter_designs : Prop :=
  forall N Wn, (0 < N)%Z -> (0 <? Wn) = true -> (Wn <? 1) = true ->
    returns (butter N Wn).

(** A design: at least one coefficient on each side, and coefficients that
    stay finite once divided by [a[0]]. *)
Definition finite_design (b a : list float) : bool :=
  match b, a with
  | _ :: _, a0 :: _ => forallb (fun c => is_finite (c / a0)) (b ++ a)
  | _, _ => false
  end.

(** The default fifth-order design has such coefficients. *)
Definition butter_finite : Prop :=
  forall Wn ba, (0 <? Wn) = true -> (Wn <? 1) = true ->
    butter default_order Wn = Ok ba -> finite_design (num ba) (den ba) = true.

(** [lfilter] returns one output sample per input sample. *)
Definition lfilter_length : Prop :=
  forall b a x y, lfilter b a x = Ok y -> length y = length x.

(** With such a design and zero initial state, silence of at least one
    sample stays silence.  (Without a numerator coefficient, or on an empty
    signal through a one-coefficient denominator, SciPy raises.) *)
Definition lfilter_silence : Prop :=
  forall b a n, (0 < n)%nat -> finite_design b a = true ->
    exists y, lfilter b a (np.zeros n) = Ok y /\
              np.array_equal y (np.zeros n) = true.

End SciPyContract.

(** ** A reference instance of the SciPy parameters

    [lfilter] is the direct-form II transposed recurrence of SciPy's
    documentation, started from zero delays; [butter] performs the range
    check and then picks a tabulated fifth-order Butterworth design. *)

Module reference.

(** The coefficient vectors are padded to a common length. *)
Definition pad (n : nat) (c : list float) : list float :=
  c ++ repeat 0 (n - length c).

(** The delays after one sample: [z'[i] = z[i+1] + x*b[i+1] - y*a[i+1]],
    the last one without a successor. *)
Fixpoint delays (b a z : list float) (x y : float) : list float :=
  match b, a with
  | bi :: b', ai :: a' =>
      match z with
      | zi :: z' => (zi + x * bi - y * ai) :: delays b' a' z' x y
      | [] => (x * bi - y * ai) :: delays b' a' [] x y
      end
  | _, _ => []
  end.

(** One sample through the filter; [b] and [a] are already normalised. *)
Definition step (b a z : list float) (x : float) : float * list float :=
  let b0 := hd 0 b in
  let y := match z with
           | [] => x * b0
           | z0 :: _ => z0 + b0 * x
           end in
  (y, delays (tl b) (tl a) (tl z) x y).

Fixpoint run (b a z : list float) (x : buffer) : buffer :=
  match x with
  | [] => []
  | xn :: x' => let '(y, z') := step b a z xn in y :: run b a z' x'
  end.

Definition lfilter (b a : list float) (x : buffer) : result buffer :=
  match a with
  | [] => Raise ValueError
  | a0 :: _ =>
      if Leibniz.eqb a0 0 then Raise ValueError
      else
        let n := Nat.max (length a) (length b) in
        let b' := map (fun c => c / a0) (pad n b) in
        let a' := map (fun c => c / a0) (pad n a) in
        Ok (run b' a' (repeat 0 (n - 1)) x)
  end.

(** Fifth-order designs for [Wn = 3000/22050], [0.5] and [0.99]. *)
Definition table (Wn : float) : coeffs :=
  if Wn <? 0.25 then
    BA [0x1.f65368e4b6b24p-13; 0x1.39f4218ef22f6p-10; 0x1.39f4218ef22f6p-9;
        0x1.39f4218ef22f6p-9; 0x1.39f4218ef22f6p-10; 0x1.f65368e4b6b24p-13]
       [1; -0x1.cf531e3047d01p+1; 0x1.589b757d8bda0p+2;
        -0x1.05ac6f9c75ee0p+2; 0x1.943bc91d72646p+0; -0x1.fada86c2adec8p-3]
  else if Wn <? 0.75 then
    BA [0x1.b06d1d2009134p-5; 0x1.0e44323405ac0p-2; 0x1.0e44323405ac0p-1;
        0x1.0e44323405ac0p-1; 0x1.0e44323405ac0p-2; 0x1.b06d1d2009134p-5]
       [1; -0x1.e000000000000p-52; 0x1.4451d5d806ce9p-1;
        -0x1.300cb87a8661bp-53; 0x1.c8864680b583dp-5; -0x1.c8864680b583dp-59]
  else
    BA [0x1.e69f86c0b294ep-1; 0x1.3023b4386f9d1p+2; 0x1.3023b4386f9d1p+3;
        0x1.3023b4386f9d1p+3; 0x1.3023b4386f9d1p+2; 0x1.e69f86c0b294ep-1]
       [1; 0x1.397e5b1567407p+2; 0x1.3326e35ef85bbp+3;
        0x1.2cf84875cce71p+3; 0x1.26f146d313884p+2; 0x1.ce810b86282ccp-1].

Definition butter (N : Z) (Wn : float) : result coeffs :=
  if (Wn <=? 0) || (Wn >=? 1) then Raise ValueError else Ok (table Wn).

End reference.

(** ** Concrete inputs

    Buffers and parameters on which the statements below are run. *)

Module sample.

Definition rate : float := 44100.
Definition cutoff : float := 3000.

Definition tone : buffer := [1; -0.5; 0.25].
Definition with_nan : buffer := [nan; 1].

Definition run (data : buffer) (fs cutoff_freq : float) : result buffer :=
  process_audio reference.butter reference.lfilter data fs cutoff_freq.

Definition filtered (data : buffer) (fs cutoff_freq : float) : result buffer :=
  butter_lowpass_filter reference.butter reference.lfilter data cutoff_freq fs
    default_order.

Definition tone_out : buffer :=
  Eval vm_compute in
    match run tone rate cutoff with Ok out => out | Raise _ => [] end.

(** The largest float below one. *)
Definition below_one : float := 0x1.fffffffffffffp-1.

Definition tone_filtered : buffer :=
  Eval vm_compute in
    match filtered tone rate cutoff with Ok y => y | Raise _ => [] end.

Definition tone_filtered_peak : float :=
  Eval vm_compute in
    match np.max (np.abs tone_filtered) with Ok v => v | Raise _ => nan end.

(** One sample so faint that its filtered value is below [librosa.tiny]. *)
Definition faint : buffer := [0x1p-1015].

(** The tolerance test of the peak-restoration property: [p] is within a
    relative 1e-6 of [m]. *)
Definition close (p m : float) : bool := PrimFloat.abs (p - m) <=? 1e-6 * m.

End sample.

(** ** The parameter panel of [main]

    Lines 145-158 of [app.py]: the presets, the select box and the slider. *)

(** Python's conversion of an [int] to a [float] in [cutoff / nyq]: correctly
    rounded, and exact below 2^53, where all cutoffs of the panel are. *)
Definition float_of_int (z : Z) : float :=
  SF2Prim (binary_normalize prec emax z 0 false).

Module ui.

Local Open Scope string_scope.

(** The label of the free-form entry. *)
Definition custom : String.string := "自定义频率".

(** [age_map], in insertion order (lines 145-151). *)
Definition age_map : list (String.string * Z) :=
  [ ("20岁 (正常听力)", 15000%Z);
    ("50岁 (轻度衰退 - 6kHz)", 6000%Z);
    ("65岁 (中度衰退 - 3kHz)", 3000%Z);
    ("80岁 (重度衰退 - 1.5kHz)", 1500%Z);
    (custom, 0%Z) ].

(** [age_map[key]]; [None] stands for [KeyError]. *)
Fixpoint getitem (d : list (String.string * Z)) (key : String.string) : option Z :=
  match d with
  | [] => None
  | (k, v) :: d' => if String.eqb key k then Some v else getitem d' key
  end.

(** What [st.selectbox] can return: [list(age_map.keys())] (line 153). *)
Definition options : list String.string := map fst age_map.

(** What [st.slider(..., 500, 10000, 2000, step=100)] can return (line 156). *)
Definition slider_values : list Z :=
  map (fun k => (500 + 100 * Z.of_nat k)%Z) (seq 0 96).

(** Lines 155-158: the cutoff handed to [process_audio]. *)
Definition cutoff_freq (selected_age : String.string) (slider : Z) : option Z :=
  if String.eqb selected_age custom then Some slider
  else getitem age_map selected_age.

End ui.

(** The cutoffs the parameter panel can produce. *)
Definition selectable : list Z :=
  [15000; 6000; 3000; 1500]%Z ++ ui.slider_values.

(** ** The default sample

    Lines 88-94 of [app.py]; [exists_] stands for [os.path.exists]. *)

Section DefaultSample.

Local Open Scope string_scope.

Variable exists_ : String.string -> bool.

Definition possible_paths : list String.string :=
  ["Sample1.mp3"; "ElderHearingFreqLoss/Sample1.mp3"].

(** The loop [for p in paths: if os.path.exists(p): return p], then [None]. *)
Fixpoint first_existing (paths : list String.string) : option String.string :=
  match paths with
  | [] => None
  | p :: rest => if exists_ p then Some p else first_existing rest
  end.

Definition get_default_sample_path : option String.string :=
  first_existing possible_paths.

End DefaultSample.

(** ** The session state of [main]

    Lines 168-236 of [app.py], as far as they read and write
    [st.session_state]: a run of the script either stores the three result
    entries or leaves the state as it was. *)

Definition bytes := list Byte.byte.

Inductive value : Type :=
| Audio (wav : bytes)                       (* the WAV file in memory *)
| Data (filtered_data : buffer)
| Params (selected_age : String.string) (cutoff_freq : Z).

(** [st.session_state]: the latest write to a key is the one read. *)
Definition session_state := list (String.string * value).

Definition setitem (key : String.string) (v : value) (s : session_state) : session_state :=
  (key, v) :: s.

Fixpoint get (s : session_state) (key : String.string) : option value :=
  match s with
  | [] => None
  | (k, v) :: s' => if String.eqb key k then Some v else get s' key
  end.

Definition contains (s : session_state) (key : String.string) : bool :=
  match get s key with Some _ => true | None => false end.

(** What one run of the script is given: the bytes of the chosen file if any,
    the widgets' values, and whether the button was pressed. *)
Record inputs : Type := Inputs {
  file_bytes : option bytes;
  selected_age : String.string;
  slider : Z;
  process_btn : bool
}.

Section Script.

Local Open Scope string_scope.

Variable butter : Z -> float -> result coeffs.
Variable lfilter : list float -> list float -> buffer -> result buffer.
(** [load_audio_data] (lines 53-60) and [sf.write] into a [BytesIO]. *)
Variable load_audio_data : bytes -> result (buffer * float).
Variable sf_write : buffer -> float -> result bytes.

(** Lines 181-194: what pressing the button stores.  An exception of
    [process_audio] or [sf.write] ends the run before the first store.  The
    call of [process_audio] goes through its cache; what is written here is
    the body. *)
Definition process_and_store
    (data : buffer) (fs : float) (selected_age : String.string) (cutoff_freq : Z)
    (s : session_state) : result session_state :=
  filtered_data <- process_audio butter lfilter data fs (float_of_int cutoff_freq) ;;
  out_io <- sf_write filtered_data fs ;;
  Ok (setitem "result_params" (Params selected_age cutoff_freq)
       (setitem "result_data" (Data filtered_data)
         (setitem "result_audio" (Audio out_io) s))).

(** The session state after one run of the script (lines 168-194).  A run
    that stops ([st.stop()] after a failed load) or raises leaves the state
    as it was. *)
Definition run_script (i : inputs) (s : session_state) : session_state :=
  match file_bytes i with
  | Some (b :: rest) =>
      match load_audio_data (b :: rest) with
      | Raise _ => s
      | Ok (data, fs) =>
          if process_btn i then
            match ui.cutoff_freq (selected_age i) (slider i) with
            | None => s
            | Some cutoff_freq =>
                match process_and_store data fs (selected_age i) cutoff_freq s with
                | Ok s' => s'
                | Raise _ => s
                end
            end
          else s
      end
  | _ => s
  end.

(** Line 230: the cutoff shown above the second spectrogram, read when
    ['result_data' in st.session_state]; [None] stands for a [KeyError] or a
    value of the wrong shape. *)
Definition shown_cutoff (s : session_state) : option Z :=
  match get s "result_params" with
  | Some (Params _ cutoff_freq) => Some cutoff_freq
  | _ => None
  end.

(** Line 232: the buffer whose spectrogram is drawn. *)
Definition shown_data (s : session_state) : option buffer :=
  match get s "result_data" with
  | Some (Data filtered_data) => Some filtered_data
  | _ => None
  end.

(** What the three entries say of each other once they are stored. *)
Definition stored (s : session_state) : Prop :=
  exists selected_age cutoff_freq filtered_data out_io content data fs,
    get s "result_params" = Some (Params selected_age cutoff_freq) /\
    get s "result_data" = Some (Data filtered_data) /\
    get s "result_audio" = Some (Audio out_io) /\
    load_audio_data content = Ok (data, fs) /\
    process_audio butter lfilter data fs (float_of_int cutoff_freq) = Ok filtered_data /\
    sf_write filtered_data fs = Ok out_io.

(** None of the three entries is there. *)
Definition blank (s : session_state) : Prop :=
  get s "result_params" = None /\ get s "result_data" = None /\
  get s "result_audio" = None.

(** The states the script can be in: the empty session, then any runs. *)
Inductive reachable : session_state -> Prop :=
| reachable_start : reachable []
| reachable_run i s : reachable s -> reachable (run_script i s).

End Script.

(** ** Calls through the cache

    The cache of [process_audio] after further calls, oldest first. *)

Section CacheRun.

Variable butter : Z -> float -> result coeffs.
Variable lfilter : list float -> list float -> buffer -> result buffer.
Variable Key : Type.
Variable key_eq_dec : forall k k' : Key, {k = k'} + {k <> k'}.
Variable hash : buffer * float * float -> Key.


End CacheRun.

(** ** The key of the cache

    [st.cache_data] keys a call by a digest of its arguments.  For an array
    Streamlit digests the shape, the dtype and the bytes; from a size
    threshold on (a million elements) it digests, in place of the bytes,
    those of a sample of the elements (100000 of them) at positions that
    depend on the size alone.  [large] and [positions] stand for the
    threshold and the positions; the digest itself is taken as faithful. *)

Section StreamlitKey.

Variable large : nat.
Variable positions : nat -> list nat.

Definition array_key (data : buffer) : nat * list float :=
  (length data,
   if (large <=? length data)%nat
   then map (fun i => nth i data 0) (positions (length data))
   else data).

Definition streamlit_key : buffer * float * float -> nat * list float * float * float :=
  fun '(data, fs, cutoff_freq) => (array_key data, fs, cutoff_freq).

End StreamlitKey.

(** A key of this kind scaled down to buffers of three samples, of which
    it reads the first; and three such buffers that agree there. *)

Module collision.

Definition large : nat := 3.
Definition positions (_ : nat) : list nat := [0%nat].

Definition key : Type := nat * list float * float * float.
Definition hash : buffer * float * float -> key := streamlit_key large positions.




End collision.

(** Two runs of the script: the button pressed on the 3 kHz preset, then the
    select box moved to the custom entry without pressing the button.  The
    loader yields [sample.tone] at 44100 Hz. *)

Module visit.

Local Open Scope string_scope.

Definition load (_ : bytes) : result (buffer * float) := Ok (sample.tone, sample.rate).
Definition write (_ : buffer) (_ : float) : result bytes := Ok [].

Definition first : inputs := Inputs (Some [Byte.x00]) "65岁 (中度衰退 - 3kHz)" 2000 true.
Definition second : inputs := Inputs (Some [Byte.x00]) ui.custom 2000 false.

Definition state : session_state :=
  run_script reference.butter reference.lfilter load write second
    (run_script reference.butter reference.lfilter load write first []).

End visit.

(** ** Vocabulary of the proofs

    Classes of binary64 values as read on their specification
    ([spec_float]), and the format exponent of binary64. *)

Inductive sf_zero : spec_float -> Prop :=
| sf_zero_intro s : sf_zero (S754_zero s).

Definition sf_fin (f : spec_float) : Prop :=
  match f with
  | S754_zero _ | S754_finite _ _ _ => True
  | _ => False
  end.

(** Zero or positive, and finite. *)
Definition sf_nn (x : spec_float) : Prop :=
  match x with
  | S754_zero false | S754_finite false _ _ => True
  | _ => False
  end.

(** Positive and finite. *)
Definition sf_pos (x : spec_float) : Prop :=
  match x with
  | S754_finite false _ _ => True
  | _ => False
  end.

Definition nonneg_finite (x : float) : Prop := sf_nn (Prim2SF x).

Definition positive_finite (x : float) : Prop := sf_pos (Prim2SF x).

Definition all_finite (c : list float) : Prop :=
  Forall (fun v => is_finite v = true) c.

Definition all_zero (c : list float) : Prop :=
  Forall (fun v => (v =? 0) = true) c.

(** The number one, as [Prim2SF] gives it. *)
Definition sf_one : spec_float := S754_finite false 4503599627370496 (-52).

(** One half and two. *)
Definition sf_half : spec_float := S754_finite false 4503599627370496 (-53).
Definition sf_two : spec_float := S754_finite false 4503599627370496 (-51).

(** Four, and the largest binary64 number below one. *)
Definition sf_four : spec_float := S754_finite false 4503599627370496 (-50).
Definition sf_below_one : spec_float := S754_finite false 9007199254740991 (-53).

(** The exponent binary64 gives a number of magnitude [e]. *)
Definition fx (e : Z) : Z := Z.max (e - 53) (-1074).

(** A shift record with no round and no sticky bit. *)
Definition exact_rec (r : shr_record) : Prop := shr_r r = false /\ shr_s r = false.

(** * Facts *)

(** ** Binary64 arithmetic, through its specification *)

Section FloatFacts.

Lemma is_nan_spec (x : float) : is_nan x = true <-> Prim2SF x = S754_nan.
Proof.
  unfold is_nan. rewrite eqb_spec. unfold SFeqb.
  destruct (Prim2SF x) as [s|s| |s m e]; simpl.
  - split; discriminate.
  - destruct s; split; discriminate.
  - split; reflexivity.
  - destruct s; rewrite Z.compare_refl, Pos.compare_cont_refl;
      split; discriminate.
Qed.

Lemma is_nan_eq (x : float) : is_nan x = true -> x = nan.
Proof.
  intros H. apply Prim2SF_inj. apply is_nan_spec in H. now rewrite H.
Qed.

Lemma eqb_zero_spec (x : float) : (x =? 0) = true <-> sf_zero (Prim2SF x).
Proof.
  rewrite eqb_spec. change (Prim2SF 0) with (S754_zero false). unfold SFeqb.
  destruct (Prim2SF x) as [s|s| |s m e]; cbn [SFcompare]; split; intros H;
    try destruct s; try discriminate H; try inversion H; try constructor;
    reflexivity.
Qed.

Lemma is_finite_spec (x : float) : is_finite x = true <-> sf_fin (Prim2SF x).
Proof.
  unfold is_finite, is_infinity, is_nan. rewrite !eqb_spec, abs_spec.
  change (Prim2SF infinity) with (S754_infinity false). unfold SFeqb.
  destruct (Prim2SF x) as [s|s| |s m e]; cbn [SFcompare SFabs sf_fin];
    try (rewrite Z.compare_refl, Pos.compare_cont_refl); cbn;
    split; intros H; try destruct s; try discriminate H; try exact I;
    try contradiction; try reflexivity.
Qed.

Lemma zero_is_finite (x : float) : (x =? 0) = true -> is_finite x = true.
Proof.
  rewrite eqb_zero_spec, is_finite_spec. intros H. now destruct H.
Qed.

Lemma mul_finite_zero (c x : float) :
  is_finite c = true -> (x =? 0) = true -> (c * x =? 0) = true.
Proof.
  rewrite is_finite_spec, !eqb_zero_spec, mul_spec. intros Hc Hx.
  destruct Hx as [sx]. destruct (Prim2SF c) as [s|s| |s m e];
    try contradiction; constructor.
Qed.

Lemma mul_zero_finite (x c : float) :
  (x =? 0) = true -> is_finite c = true -> (x * c =? 0) = true.
Proof.
  rewrite is_finite_spec, !eqb_zero_spec, mul_spec. intros Hx Hc.
  destruct Hx as [sx]. destruct (Prim2SF c) as [s|s| |s m e];
    try contradiction; constructor.
Qed.

Lemma add_zero_zero (x y : float) :
  (x =? 0) = true -> (y =? 0) = true -> (x + y =? 0) = true.
Proof.
  rewrite !eqb_zero_spec, add_spec. intros [sx] [sy].
  destruct sx, sy; constructor.
Qed.

Lemma sub_zero_zero (x y : float) :
  (x =? 0) = true -> (y =? 0) = true -> (x - y =? 0) = true.
Proof.
  rewrite !eqb_zero_spec, sub_spec. intros [sx] [sy].
  destruct sx, sy; constructor.
Qed.

(** A divisor whose quotient by itself is finite is finite and not zero. *)
Lemma self_quotient_finite (a : float) :
  is_finite (a / a) = true -> exists s m e, Prim2SF a = S754_finite s m e.
Proof.
  rewrite is_finite_spec, div_spec. unfold SF64div.
  destruct (Prim2SF a) as [s|s| |s m e]; cbn [SFdiv sf_fin];
    try contradiction. intros _. now exists s, m, e.
Qed.

Lemma zero_div_finite (a : float) s m e :
  Prim2SF a = S754_finite s m e -> (0 / a =? 0) = true.
Proof.
  intros H. rewrite eqb_zero_spec, div_spec, H.
  change (Prim2SF 0) with (S754_zero false). constructor.
Qed.

End FloatFacts.

(** ** NumPy reductions *)

Section NumPyFacts.

Lemma maximum_nan_arg (acc : float) : np.maximum acc nan = nan.
Proof.
  unfold np.maximum. destruct (is_nan acc) eqn:E.
  - now apply is_nan_eq.
  - replace (nan <? acc) with false; [reflexivity|].
    rewrite ltb_spec. reflexivity.
Qed.

Lemma fold_maximum_nan (l : buffer) : fold_left np.maximum l nan = nan.
Proof. induction l as [|x l IH]; simpl; [reflexivity | exact IH]. Qed.

Lemma fold_maximum_has_nan (l : buffer) (acc : float) :
  existsb is_nan l = true -> fold_left np.maximum l acc = nan.
Proof.
  revert acc. induction l as [|x l IH]; intros acc H; simpl in *.
  - discriminate.
  - destruct (is_nan x) eqn:E.
    + apply is_nan_eq in E. subst x.
      rewrite maximum_nan_arg. apply fold_maximum_nan.
    + apply IH. exact H.
Qed.

Lemma abs_has_nan (l : buffer) :
  existsb is_nan l = true -> existsb is_nan (np.abs l) = true.
Proof.
  induction l as [|x l IH]; simpl; [trivial|].
  destruct (is_nan x) eqn:E.
  - intros _. apply is_nan_eq in E. subst x. reflexivity.
  - intros H. rewrite (IH H). apply orb_true_r.
Qed.

(** The peak of a buffer that holds a NaN is NaN. *)
Lemma max_abs_nan (data : buffer) :
  existsb is_nan data = true -> np.max (np.abs data) = Ok nan.
Proof.
  intros H. apply abs_has_nan in H.
  destruct (np.abs data) as [|x l]; simpl in *; [discriminate|].
  f_equal. destruct (is_nan x) eqn:E.
  - apply is_nan_eq in E. subst x. apply fold_maximum_nan.
  - now apply fold_maximum_has_nan.
Qed.

End NumPyFacts.

(** ** Order facts on binary64 *)

Section OrderFacts.

Lemma SFcompare_antisym (x y : spec_float) :
  SFcompare y x = option_map CompOpp (SFcompare x y).
Proof.
  destruct x as [sx|sx| |sx mx ex], y as [sy|sy| |sy my ey]; simpl;
    try reflexivity;
    try (destruct sx; reflexivity);
    try (destruct sy; reflexivity);
    try (destruct sx, sy; reflexivity).
  destruct sx, sy; simpl; try reflexivity;
    rewrite (Z.compare_antisym ex ey);
    destruct (ex ?= ey)%Z; simpl; try reflexivity;
    try rewrite CompOpp_involutive;
    first [ exact (f_equal Some (eq_sym (Pos.compare_cont_antisym mx my Eq)))
          | exact (f_equal Some (Pos.compare_cont_antisym my mx Eq)) ].
Qed.

Lemma ltb_not_geb (x y : float) : (x <? y) = true -> (x >=? y) = false.
Proof.
  unfold geb. rewrite ltb_spec, leb_spec. unfold SFltb, SFleb.
  rewrite (SFcompare_antisym (Prim2SF x) (Prim2SF y)).
  destruct (SFcompare (Prim2SF x) (Prim2SF y)) as [[| |]|]; simpl;
    try discriminate; reflexivity.
Qed.

Lemma not_geb_ltb (x y : float) :
  is_nan x = false -> is_nan y = false -> (x >=? y) = false -> (x <? y) = true.
Proof.
  intros Hx Hy. unfold geb. rewrite ltb_spec, leb_spec. unfold SFltb, SFleb.
  rewrite (SFcompare_antisym (Prim2SF x) (Prim2SF y)).
  destruct (SFcompare (Prim2SF x) (Prim2SF y)) as [[| |]|] eqn:E; simpl;
    try discriminate; try reflexivity.
  intros _. exfalso.
  assert (Nx : Prim2SF x <> S754_nan).
  { intros A. apply is_nan_spec in A. congruence. }
  assert (Ny : Prim2SF y <> S754_nan).
  { intros A. apply is_nan_spec in A. congruence. }
  destruct (Prim2SF x) as [sx|sx| |sx mx ex], (Prim2SF y) as [sy|sy| |sy my ey];
    simpl in E; try discriminate; congruence.
Qed.

Lemma ltb_not_nan_r (x y : float) : (x <? y) = true -> is_nan y = false.
Proof.
  intros H. destruct (is_nan y) eqn:E; [|reflexivity].
  apply is_nan_eq in E. subst y. rewrite ltb_spec in H.
  unfold SFltb in H. destruct (Prim2SF x); discriminate.
Qed.

(** A value at or below zero is below one. *)
Lemma nonpositive_below_one (x : float) : (x <=? 0) = true -> (x <? 1) = true.
Proof.
  rewrite leb_spec, ltb_spec. unfold SFleb, SFltb.
  change (Prim2SF 0) with (S754_zero false).
  change (Prim2SF 1) with (S754_finite false 4503599627370496 (-52)).
  destruct (Prim2SF x) as [s|s| |s m e]; cbn [SFcompare];
    try destruct s; cbv beta iota; intros H; try discriminate H; reflexivity.
Qed.

Lemma positive_not_nonpositive (x : float) : (0 <? x) = true -> (x <=? 0) = false.
Proof. intros H. apply ltb_not_geb in H. exact H. Qed.

End OrderFacts.

(** ** Results *)

Section ResultFacts.

Context {A B : Type}.

Lemma bind_ok (r : result A) (k : A -> result B) (w : B) :
  bind r k = Ok w -> exists v, r = Ok v /\ k v = Ok w.
Proof.
  destruct r as [v|e]; simpl; intros H; [|discriminate].
  exists v. split; [reflexivity | exact H].
Qed.

End ResultFacts.

(** ** The filter stage *)

Section FilterStage.

Variable butter : Z -> float -> result coeffs.
Variable lfilter : list float -> list float -> buffer -> result buffer.

(** What the stage does once the normalised cutoff is known. *)
Lemma butter_lowpass_filter_unfold data cutoff fs order nc :
  truediv cutoff (0.5 * fs) = Ok nc ->
  butter_lowpass_filter butter lfilter data cutoff fs order =
    (ba <- butter order (if nc >=? 1 then 0.99 else nc) ;;
     lfilter (num ba) (den ba) data).
Proof.
  intros H. unfold butter_lowpass_filter. rewrite H. reflexivity.
Qed.

Lemma butter_lowpass_filter_zero_nyquist data cutoff fs order :
  (0.5 * fs =? 0) = true ->
  butter_lowpass_filter butter lfilter data cutoff fs order = Raise ZeroDivisionError.
Proof.
  intros H. unfold butter_lowpass_filter, truediv. rewrite H. reflexivity.
Qed.

Lemma truediv_nonzero x y : (y =? 0) = false -> truediv x y = Ok (x / y).
Proof. intros H. unfold truediv. now rewrite H. Qed.

Lemma clamp_value_in_range : (0 <? 0.99) = true /\ (0.99 <? 1) = true.
Proof. split; reflexivity. Qed.

End FilterStage.

(** ** The reference instance meets the contract *)

Section ReferenceFacts.

Lemma reference_butter_rejects : butter_rejects reference.butter.
Proof.
  intros N Wn H. unfold reference.butter. rewrite H. reflexivity.
Qed.

Lemma reference_butter_designs : butter_designs reference.butter.
Proof.
  intros N Wn _ Hpos Hlt. unfold reference.butter.
  rewrite (positive_not_nonpositive _ Hpos), (ltb_not_geb _ _ Hlt).
  simpl. eexists. reflexivity.
Qed.

Lemma reference_run_length b a z x : length (reference.run b a z x) = length x.
Proof.
  revert z. induction x as [|xn x IH]; intros z; simpl; [reflexivity|].
  now rewrite IH.
Qed.

Lemma reference_lfilter_length : lfilter_length reference.lfilter.
Proof.
  intros b a x y. unfold reference.lfilter.
  destruct a as [|a0 a]; [discriminate|].
  destruct (Leibniz.eqb a0 0); [discriminate|].
  intros H. injection H as <-. apply reference_run_length.
Qed.

Lemma reference_butter_finite : butter_finite reference.butter.
Proof.
  intros Wn ba _ _. unfold reference.butter.
  destruct ((Wn <=? 0) || (Wn >=? 1)); [discriminate|].
  intros H. injection H as <-. unfold reference.table.
  destruct (Wn <? 0.25); [reflexivity|].
  destruct (Wn <? 0.75); reflexivity.
Qed.

Lemma all_zero_repeat n : all_zero (repeat 0 n).
Proof. induction n; simpl; constructor; [reflexivity | assumption]. Qed.

Lemma all_zero_tl z : all_zero z -> all_zero (tl z).
Proof. intros H. destruct H; simpl; [constructor | assumption]. Qed.

Lemma all_finite_tl c : all_finite c -> all_finite (tl c).
Proof. intros H. destruct H; simpl; [constructor | assumption]. Qed.

(** Zero input and zero output keep every delay at zero. *)
Lemma delays_zero b a z x y :
  all_finite b -> all_finite a -> all_zero z ->
  (x =? 0) = true -> (y =? 0) = true ->
  all_zero (reference.delays b a z x y).
Proof.
  intros Hb. revert a z. induction Hb as [|bi b Hbi Hb IH];
  intros a z Ha Hz Hx Hy; simpl; [constructor|].
  destruct Ha as [|ai a Hai Ha]; [constructor|].
  destruct Hz as [|zi z Hzi Hz]; constructor.
  - apply sub_zero_zero; now apply mul_zero_finite.
  - apply IH; trivial. constructor.
  - apply sub_zero_zero; [apply add_zero_zero; trivial|];
    now apply mul_zero_finite.
  - now apply IH.
Qed.

Lemma step_zero b a z x :
  all_finite b -> all_finite a -> all_zero z -> (x =? 0) = true ->
  (fst (reference.step b a z x) =? 0) = true /\
  all_zero (snd (reference.step b a z x)).
Proof.
  intros Hb Ha Hz Hx. unfold reference.step. cbn [fst snd].
  assert (Hb0 : is_finite (hd 0 b) = true).
  { destruct Hb; simpl; [reflexivity | assumption]. }
  assert (Hy : ((match z with
                 | [] => x * hd 0 b
                 | z0 :: _ => z0 + hd 0 b * x
                 end) =? 0) = true).
  { destruct Hz as [|z0 z Hz0 Hz].
    - now apply mul_zero_finite.
    - apply add_zero_zero; [assumption|]. now apply mul_finite_zero. }
  split; [exact Hy|].
  apply delays_zero; trivial;
    [now apply all_finite_tl | now apply all_finite_tl | now apply all_zero_tl].
Qed.

Lemma run_cons b a z x xs :
  reference.run b a z (x :: xs) =
    fst (reference.step b a z x) ::
    reference.run b a (snd (reference.step b a z x)) xs.
Proof.
  cbn [reference.run]. now destruct (reference.step b a z x).
Qed.

Lemma run_zero b a z n :
  all_finite b -> all_finite a -> all_zero z ->
  all_zero (reference.run b a z (np.zeros n)).
Proof.
  intros Hb Ha. revert z. induction n as [|n IH]; intros z Hz.
  - constructor.
  - change (np.zeros (S n)) with (0 :: np.zeros n). rewrite run_cons.
    destruct (step_zero b a z 0 Hb Ha Hz eq_refl) as [Hy Hz'].
    constructor; [exact Hy | now apply IH].
Qed.

Lemma array_equal_zeros y n :
  length y = n -> all_zero y -> np.array_equal y (np.zeros n) = true.
Proof.
  intros Hlen Hz. unfold np.array_equal, np.zeros.
  rewrite repeat_length, Hlen, Nat.eqb_refl. simpl.
  subst n. induction Hz as [|v y Hv Hz IH]; simpl; [reflexivity|].
  now rewrite Hv, IH.
Qed.

Lemma normalised_finite (a0 : float) (c : list float) n :
  is_finite (a0 / a0) = true ->
  forallb (fun v => is_finite (v / a0)) c = true ->
  all_finite (map (fun v => v / a0) (reference.pad n c)).
Proof.
  intros Ha0 Hc. unfold reference.pad, all_finite.
  rewrite map_app. apply Forall_app. split.
  - rewrite forallb_forall in Hc. apply Forall_forall.
    intros v Hv. apply in_map_iff in Hv. destruct Hv as [w [<- Hw]].
    now apply Hc.
  - apply Forall_forall. intros v Hv. apply in_map_iff in Hv.
    destruct Hv as [w [<- Hw]]. apply repeat_spec in Hw. subst w.
    destruct (self_quotient_finite _ Ha0) as [s [m [e Hs]]].
    apply zero_is_finite. exact (zero_div_finite _ _ _ _ Hs).
Qed.

Lemma reference_lfilter_silence : lfilter_silence reference.lfilter.
Proof.
  intros b a n _ H. unfold finite_design in H.
  destruct b as [|b0 b]; [discriminate|].
  destruct a as [|a0 a]; [discriminate|].
  rewrite forallb_app in H. apply andb_true_iff in H. destruct H as [Hb Ha].
  assert (Ha0 : is_finite (a0 / a0) = true).
  { simpl in Ha. now apply andb_true_iff in Ha. }
  unfold reference.lfilter.
  destruct (Leibniz.eqb a0 0) eqn:E.
  - apply Leibniz.eqb_spec in E. subst a0. discriminate Ha0.
  - eexists. split; [reflexivity|].
    apply array_equal_zeros;
      [rewrite reference_run_length; apply repeat_length|].
    apply run_zero; try now apply normalised_finite.
    apply all_zero_repeat.
Qed.

End ReferenceFacts.

(** ** Gain compensation *)

Section GainFacts.

Lemma normalize_length S out :
  librosa.normalize S = Ok out -> length out = length S.
Proof.
  unfold librosa.normalize.
  destruct (negb (forallb np.isfinite S)); [discriminate|].
  destruct (np.max (np.abs S)) as [m|e]; simpl; [|discriminate].
  intros H. injection H as <-. apply length_map.
Qed.

Lemma gain_compensation_length data filtered out :
  gain_compensation data filtered = Ok out -> length out = length filtered.
Proof.
  unfold gain_compensation.
  destruct (np.max (np.abs data)) as [m|e]; simpl; [|discriminate].
  destruct (0 <? m).
  - destruct (librosa.normalize filtered) as [n|e] eqn:E; simpl; [|discriminate].
    intros H. injection H as <-. rewrite length_map.
    now apply normalize_length.
  - intros H. now injection H as <-.
Qed.

Lemma gain_compensation_nan data filtered :
  existsb is_nan data = true -> gain_compensation data filtered = Ok filtered.
Proof.
  intros H. unfold gain_compensation. rewrite (max_abs_nan _ H). reflexivity.
Qed.

End GainFacts.

(** ** The cache *)

Section CacheFacts.

Context {Key Args Value : Type}.
Variable key_eq_dec : forall k k' : Key, {k = k'} + {k <> k'}.
Variable hash : Args -> Key.
Variable body : Args -> result Value.

Lemma lookup_head k v (c : cache Key Value) :
  lookup key_eq_dec k ((k, v) :: c) = Some v.
Proof.
  simpl. destruct (key_eq_dec k k) as [_|Hne]; [reflexivity | now contradiction Hne].
Qed.

(** A second call with the same arguments repeats the first result and
    leaves the cache alone. *)
Lemma cached_call_twice (c : cache Key Value) (args : Args) :
  let first := cached_call key_eq_dec hash body c args in
  cached_call key_eq_dec hash body (snd first) args = (fst first, snd first).
Proof.
  cbv zeta. unfold cached_call.
  destruct (lookup key_eq_dec (hash args) c) as [v|] eqn:Hc.
  - simpl. now rewrite Hc.
  - destruct (body args) as [v|e] eqn:Hb.
    + cbn [fst snd]. now rewrite lookup_head.
    + cbn [fst snd]. now rewrite Hc.
Qed.

End CacheFacts.

(** ** The cache over a history of calls *)

Section CacheSteps.

Context {Key Args Value : Type}.
Variable key_eq_dec : forall k k' : Key, {k = k'} + {k <> k'}.
Variable hash : Args -> Key.
Variable body : Args -> result Value.






End CacheSteps.

Section CachedPipelineFacts.

Variable butter : Z -> float -> result coeffs.
Variable lfilter : list float -> list float -> buffer -> result buffer.
Variable Key : Type.
Variable key_eq_dec : forall k k' : Key, {k = k'} + {k <> k'}.
Variable hash : buffer * float * float -> Key.



End CachedPipelineFacts.

(** ** Rounding to binary64

    [binary_round_aux] is what every arithmetic operation of the
    specification ends with.  The facts below follow it on non-negative
    mantissas: truncation to the format, rounding to nearest even, and the
    comparison of the result with a representable bound. *)

Section Rounding.

Local Open Scope Z_scope.

Lemma digits2_pos_bounds (p : positive) :
  2 ^ (Zpos (digits2_pos p) - 1) <= Zpos p < 2 ^ (Zpos (digits2_pos p)).
Proof.
  induction p as [p IH|p IH|]; cbn [digits2_pos].
  - rewrite Pos2Z.inj_succ.
    replace (Z.succ (Zpos (digits2_pos p)) - 1) with (Z.succ (Zpos (digits2_pos p) - 1)) by lia.
    rewrite !Z.pow_succ_r by lia. lia.
  - rewrite Pos2Z.inj_succ.
    replace (Z.succ (Zpos (digits2_pos p)) - 1) with (Z.succ (Zpos (digits2_pos p) - 1)) by lia.
    rewrite !Z.pow_succ_r by lia. lia.
  - cbn. lia.
Qed.

Lemma shr_1_m (r : shr_record) : 0 <= shr_m r -> shr_m (shr_1 r) = shr_m r / 2.
Proof.
  destruct r as [m rb sb]. cbn [shr_m]. intros Hm. unfold shr_1.
  destruct m as [|p|p]; [reflexivity| |lia].
  destruct p as [p|p|]; cbn [shr_m].
  - rewrite Pos2Z.inj_xI. apply Z.div_unique with 1; lia.
  - rewrite Pos2Z.inj_xO. apply Z.div_unique with 0; lia.
  - reflexivity.
Qed.

Lemma shr_1_exact (r : shr_record) :
  0 <= shr_m r -> shr_m r mod 2 = 0 -> exact_rec r -> exact_rec (shr_1 r).
Proof.
  destruct r as [m rb sb]. unfold exact_rec. cbn [shr_m shr_r shr_s].
  intros Hm Hev [-> ->]. unfold shr_1.
  destruct m as [|p|p]; [split; reflexivity| |lia].
  destruct p as [p|p|]; cbn [shr_r shr_s]; try (split; reflexivity).
  - rewrite Pos2Z.inj_xI in Hev. exfalso.
    rewrite Z.add_comm, Z.mul_comm, Z.mod_add in Hev by lia. discriminate.
  - discriminate.
Qed.

Lemma iter_pos_shr_m (n : positive) : forall r : shr_record,
  0 <= shr_m r -> shr_m (iter_pos shr_1 n r) = shr_m r / 2 ^ Zpos n.
Proof.
  induction n as [n IH|n IH|]; intros r Hr; cbn [iter_pos].
  - assert (H1 : 0 <= shr_m (shr_1 r)) by (rewrite shr_1_m by lia; apply Z.div_pos; lia).
    assert (H2 : 0 <= shr_m (iter_pos shr_1 n (shr_1 r)))
      by (rewrite IH by lia; apply Z.div_pos; [lia | apply Z.pow_pos_nonneg; lia]).
    rewrite IH, IH, shr_1_m by lia.
    rewrite !Z.div_div by (try apply Z.pow_pos_nonneg; lia).
    f_equal. change (Z.pos n~1) with (2 * Z.pos n + 1).
    rewrite Z.add_1_r. rewrite Z.pow_succ_r by lia.
    rewrite Z.pow_twice_r. reflexivity.
  - assert (H2 : 0 <= shr_m (iter_pos shr_1 n r))
      by (rewrite IH by lia; apply Z.div_pos; [lia | apply Z.pow_pos_nonneg; lia]).
    rewrite IH, IH by lia.
    rewrite !Z.div_div by (try apply Z.pow_pos_nonneg; lia).
    f_equal. change (Z.pos n~0) with (2 * Z.pos n). rewrite Z.pow_twice_r. reflexivity.
  - rewrite shr_1_m by lia. reflexivity.
Qed.

Lemma divide_step (a b m : Z) :
  0 < a -> (a * b | m) -> (a | m) /\ (b | m / a).
Proof.
  intros Ha [k Hk]. split.
  - exists (k * b). lia.
  - exists k. subst m. replace (k * (a * b)) with (k * b * a) by lia.
    now rewrite Z.div_mul by lia.
Qed.

Lemma shr_1_nonneg (r : shr_record) : 0 <= shr_m r -> 0 <= shr_m (shr_1 r).
Proof. intros H. rewrite shr_1_m by lia. apply Z.div_pos; lia. Qed.

Lemma iter_pos_nonneg (n : positive) (r : shr_record) :
  0 <= shr_m r -> 0 <= shr_m (iter_pos shr_1 n r).
Proof.
  intros H. rewrite iter_pos_shr_m by lia.
  apply Z.div_pos; [lia | apply Z.pow_pos_nonneg; lia].
Qed.

Lemma iter_pos_exact (n : positive) : forall r : shr_record,
  0 <= shr_m r -> (2 ^ Zpos n | shr_m r) -> exact_rec r ->
  exact_rec (iter_pos shr_1 n r).
Proof.
  assert (P2 : forall k, 0 < 2 ^ Zpos k) by (intros; apply Z.pow_pos_nonneg; lia).
  assert (Even : forall m, (2 | m) -> m mod 2 = 0).
  { intros m Hm. apply Z.mod_divide in Hm; lia. }
  induction n as [n IH|n IH|]; intros r Hr Hd He; cbn [iter_pos].
  - change (Z.pos n~1) with (2 * Z.pos n + 1) in Hd.
    rewrite Z.add_1_r, Z.pow_succ_r, Z.pow_twice_r in Hd by lia.
    apply divide_step in Hd; [|lia]. destruct Hd as [H2 Hd].
    apply divide_step in Hd; [|apply P2]. destruct Hd as [Hd1 Hd2].
    apply IH.
    + apply iter_pos_nonneg. now apply shr_1_nonneg.
    + rewrite iter_pos_shr_m by now apply shr_1_nonneg.
      rewrite shr_1_m by lia. exact Hd2.
    + apply IH.
      * now apply shr_1_nonneg.
      * rewrite shr_1_m by lia. exact Hd1.
      * apply shr_1_exact; auto.
  - change (Z.pos n~0) with (2 * Z.pos n) in Hd.
    rewrite Z.pow_twice_r in Hd.
    apply divide_step in Hd; [|apply P2]. destruct Hd as [Hd1 Hd2].
    apply IH.
    + now apply iter_pos_nonneg.
    + rewrite iter_pos_shr_m by lia. exact Hd2.
    + now apply IH.
  - apply shr_1_exact; auto.
Qed.

(** What [shr] computes on a non-negative mantissa. *)
Lemma shr_spec (r : shr_record) (e n : Z) :
  0 <= shr_m r -> 0 <= n ->
  snd (shr r e n) = e + n /\
  shr_m (fst (shr r e n)) = shr_m r / 2 ^ n /\
  ((2 ^ n | shr_m r) -> exact_rec r -> exact_rec (fst (shr r e n))).
Proof.
  intros Hr Hn. unfold shr. destruct n as [|p|p]; cbn [fst snd].
  - split; [lia|]. split; [now rewrite Z.div_1_r | auto].
  - split; [reflexivity|]. split; [now apply iter_pos_shr_m | now apply iter_pos_exact].
  - lia.
Qed.

Lemma shr_record_of_loc_m m l : shr_m (shr_record_of_loc m l) = m.
Proof. destruct l as [|[| |]]; reflexivity. Qed.

Lemma exact_rec_loc r : exact_rec r -> loc_of_shr_record r = loc_Exact.
Proof. destruct r as [m rb sb]. intros [H1 H2]. cbn in H1, H2. subst. reflexivity. Qed.

Lemma round_nearest_even_range m l :
  round_nearest_even m l = m \/ round_nearest_even m l = m + 1.
Proof.
  destruct l as [|[| |]]; cbn [round_nearest_even]; auto.
  destruct (Z.even m); auto.
Qed.

Lemma fexp_fx e : fexp prec emax e = fx e.
Proof. reflexivity. Qed.

Lemma Zdigits2_bounds (x : Z) :
  0 < x -> 2 ^ (Zdigits2 x - 1) <= x < 2 ^ Zdigits2 x.
Proof.
  destruct x as [|p|p]; try lia. intros _. apply digits2_pos_bounds.
Qed.

Lemma Zdigits2_pos (x : Z) : 0 < x -> 0 < Zdigits2 x.
Proof. destruct x; cbn; lia. Qed.

Lemma pow2_lt_inv (a b : Z) : 0 <= a -> 2 ^ a < 2 ^ b -> a < b.
Proof.
  intros Ha H. destruct (Z_lt_le_dec a b) as [|Hle]; [assumption|].
  exfalso. assert (2 ^ b <= 2 ^ a) by (apply Z.pow_le_mono_r; lia). lia.
Qed.

Lemma Zdigits2_unique (x d : Z) :
  0 < x -> 2 ^ (d - 1) <= x < 2 ^ d -> Zdigits2 x = d.
Proof.
  intros Hx [Hlo Hhi].
  pose proof (Zdigits2_bounds x Hx) as [Blo Bhi].
  pose proof (Zdigits2_pos x Hx) as HD.
  assert (Hd : 0 < d).
  { destruct (Z_lt_le_dec 0 d) as [|Hle]; [assumption|].
    exfalso. destruct (Z.eq_dec d 0) as [->|Hne].
    - cbn in Hhi. lia.
    - rewrite (Z.pow_neg_r 2 d) in Hhi by lia. lia. }
  assert (Zdigits2 x - 1 < d) by (apply pow2_lt_inv; lia).
  assert (d - 1 < Zdigits2 x) by (apply pow2_lt_inv; lia).
  lia.
Qed.

Lemma shr_nonpos (r : shr_record) (e n : Z) : n <= 0 -> shr r e n = (r, e).
Proof. intros Hn. unfold shr. destruct n; try reflexivity. lia. Qed.

Lemma bounded_spec (my : positive) (ey : Z) :
  bounded prec emax my ey = true ->
  fx (Zpos (digits2_pos my) + ey) = ey /\ ey <= 971.
Proof.
  unfold bounded, canonical_mantissa. rewrite andb_true_iff, Z.eqb_eq, Z.leb_le.
  rewrite fexp_fx. intros [H1 H2]. split; [exact H1 | exact H2].
Qed.

Lemma pow2_split (a b : Z) : 0 <= a -> 0 <= b -> 2 ^ (a + b) = 2 ^ a * 2 ^ b.
Proof. intros. now apply Z.pow_add_r. Qed.

Lemma pow2_pos (a : Z) : 0 <= a -> 0 < 2 ^ a.
Proof. intros. apply Z.pow_pos_nonneg; lia. Qed.

(** The exponent chosen for a mantissa below a representable bound is at
  most the exponent of the bound. *)
Lemma fx_below (m e : Z) (my : positive) (ey : Z) :
  0 < m -> e <= ey -> fx (Zpos (digits2_pos my) + ey) = ey ->
  m <= Zpos my * 2 ^ (ey - e) ->
  fx (Zdigits2 m + e) <= ey.
Proof.
  intros Hm He Hcan Hle.
  pose proof (digits2_pos_bounds my) as [_ Hdy].
  pose proof (Zdigits2_bounds m Hm) as [Hdm _].
  pose proof (Zdigits2_pos m Hm) as Hpos.
  assert (H : 2 ^ (Zdigits2 m - 1) < 2 ^ (Zpos (digits2_pos my) + (ey - e))).
  { rewrite pow2_split by lia.
    assert (0 < 2 ^ (ey - e)) by (apply pow2_pos; lia). nia. }
  apply pow2_lt_inv in H; [|lia].
  unfold fx in *. lia.
Qed.

(** First half of [binary_round_aux]: truncate to the format, then round. *)
Lemma round_first (mx ex : Z) (lx : location) (my : positive) (ey : Z) :
  0 <= mx -> ex <= fx (Zdigits2 mx + ex) ->
  fx (Zpos (digits2_pos my) + ey) = ey -> ex <= ey ->
  (mx < Zpos my * 2 ^ (ey - ex) \/ (mx = Zpos my * 2 ^ (ey - ex) /\ lx = loc_Exact)) ->
  let mrs := fst (shr_fexp prec emax mx ex lx) in
  let e' := snd (shr_fexp prec emax mx ex lx) in
  let m1 := round_nearest_even (shr_m mrs) (loc_of_shr_record mrs) in
  -1074 <= e' /\ e' <= ey /\ 0 <= m1 <= Zpos my * 2 ^ (ey - e') /\
  (mx = Zpos my * 2 ^ (ey - ex) -> e' = ey /\ m1 = Zpos my).
Proof.
  intros Hmx Hn Hcan Hee Hv. cbv zeta. unfold shr_fexp. rewrite fexp_fx.
  set (n := fx (Zdigits2 mx + ex) - ex).
  assert (Hn0 : 0 <= n) by (unfold n; lia).
  destruct (shr_spec (shr_record_of_loc mx lx) ex n) as [He' [Hm' Hex]];
    [now rewrite shr_record_of_loc_m | exact Hn0 |].
  rewrite shr_record_of_loc_m in Hm', Hex.
  set (mrs := fst (shr (shr_record_of_loc mx lx) ex n)) in *.
  set (e' := snd (shr (shr_record_of_loc mx lx) ex n)) in *.
  assert (Hlow : -1074 <= e') by (rewrite He'; unfold n, fx; lia).
  assert (Hle : mx <= Zpos my * 2 ^ (ey - ex)) by (destruct Hv as [|[-> _]]; lia).
  assert (He'y : e' <= ey).
  { rewrite He'. unfold n. replace (ex + (fx (Zdigits2 mx + ex) - ex))
      with (fx (Zdigits2 mx + ex)) by lia.
    destruct (Z.eq_dec mx 0) as [->|Hne].
    - cbn [Zdigits2] in *. unfold fx in *. lia.
    - apply fx_below with my; trivial. lia. }
  assert (Hsplit : 2 ^ (ey - ex) = 2 ^ (ey - e') * 2 ^ n).
  { rewrite <- pow2_split by lia. f_equal. lia. }
  assert (Hpn : 0 < 2 ^ n) by now apply pow2_pos.
  assert (Hm'0 : 0 <= shr_m mrs) by (rewrite Hm'; apply Z.div_pos; lia).
  set (K := Zpos my * 2 ^ (ey - e')) in *.
  assert (HK : Zpos my * 2 ^ (ey - ex) = K * 2 ^ n) by (unfold K; rewrite Hsplit; lia).
  rewrite HK in *.
  split; [exact Hlow|]. split; [exact He'y|].
  assert (Hm1 : 0 <= round_nearest_even (shr_m mrs) (loc_of_shr_record mrs) <= K /\
                (mx = K * 2 ^ n ->
                 round_nearest_even (shr_m mrs) (loc_of_shr_record mrs) = K)).
  { destruct Hv as [Hlt|[Heq Hl]].
    - assert (shr_m mrs < K).
      { rewrite Hm'. apply Z.div_lt_upper_bound; lia. }
      destruct (round_nearest_even_range (shr_m mrs) (loc_of_shr_record mrs)) as [->| ->];
        split; lia.
    - assert (Hm'K : shr_m mrs = K) by (rewrite Hm', Heq; apply Z.div_mul; lia).
      assert (Hex' : exact_rec mrs).
      { apply Hex; [rewrite Heq; exists K; lia|]. subst lx. split; reflexivity. }
      rewrite (exact_rec_loc _ Hex'). cbn [round_nearest_even]. lia. }
  destruct Hm1 as [Hm1 Hm1eq]. split; [exact Hm1|].
  intros Heq. 
  assert (Hmxpos : 0 < mx).
  { rewrite Heq. unfold K. assert (0 < 2 ^ (ey - e')) by (apply pow2_pos; lia). nia. }
  assert (Hd : Zdigits2 mx = Zpos (digits2_pos my) + (ey - ex)).
  { apply Zdigits2_unique; [exact Hmxpos|].
    pose proof (digits2_pos_bounds my) as [Hlo Hhi].
    rewrite Heq, <- HK.
    replace (Zpos (digits2_pos my) + (ey - ex) - 1)
      with ((Zpos (digits2_pos my) - 1) + (ey - ex)) by lia.
    assert (0 < Zpos (digits2_pos my)) by lia.
    rewrite !pow2_split by lia.
    assert (0 < 2 ^ (ey - ex)) by (apply pow2_pos; lia). nia. }
  assert (Hey : e' = ey).
  { rewrite He'. unfold n. rewrite Hd.
    replace (Zpos (digits2_pos my) + (ey - ex) + ex) with (Zpos (digits2_pos my) + ey) by lia.
    lia. }
  split; [exact Hey|]. rewrite (Hm1eq Heq). unfold K. rewrite Hey, Z.sub_diag. cbn. lia.
Qed.

(** Second half: one more truncation in case rounding added a digit. *)
Lemma round_second (m1 e' : Z) (my : positive) (ey : Z) :
  -1074 <= e' -> e' <= ey -> fx (Zpos (digits2_pos my) + ey) = ey ->
  0 <= m1 <= Zpos my * 2 ^ (ey - e') ->
  let m2 := shr_m (fst (shr_fexp prec emax m1 e' loc_Exact)) in
  let e2 := snd (shr_fexp prec emax m1 e' loc_Exact) in
  0 <= m2 /\ e2 <= ey /\ (e2 = ey -> m2 <= Zpos my) /\
  (e' = ey -> m1 = Zpos my -> m2 = Zpos my /\ e2 = ey).
Proof.
  intros Hlow He'y Hcan Hm1. cbv zeta. unfold shr_fexp. rewrite fexp_fx.
  set (n := fx (Zdigits2 m1 + e') - e').
  destruct (Z_le_gt_dec n 0) as [Hn|Hn].
  - rewrite (shr_nonpos _ _ _ Hn). cbn [fst snd]. cbn [shr_record_of_loc shr_m].
    split; [lia|]. split; [lia|]. split.
    + intros ->. rewrite Z.sub_diag in Hm1. cbn in Hm1. lia.
    + intros E1 E2. split; assumption.
  - destruct (shr_spec (shr_record_of_loc m1 loc_Exact) e' n) as [He2 [Hm2 _]];
      [cbn; lia | lia |].
    rewrite shr_record_of_loc_m in Hm2.
    set (r := shr (shr_record_of_loc m1 loc_Exact) e' n) in *.
    assert (Hpos : 0 < m1).
    { destruct (Z.eq_dec m1 0) as [E|E]; [|lia].
      exfalso. unfold n in Hn. rewrite E in Hn. cbn [Zdigits2] in Hn.
      unfold fx in Hn. lia. }
    assert (Hb : fx (Zdigits2 m1 + e') <= ey).
    { apply fx_below with my; trivial. lia. }
    assert (He2y : snd r <= ey) by (rewrite He2; unfold n; lia).
    assert (Hpn : 0 < 2 ^ n) by (apply pow2_pos; lia).
    split; [rewrite Hm2; apply Z.div_pos; lia|].
    split; [exact He2y|]. split.
    + intros E. rewrite Hm2.
      assert (Hk : ey - e' = n) by lia. rewrite Hk in Hm1.
      apply Z.div_le_upper_bound; lia.
    + intros E1 E2. exfalso. unfold n in Hn. rewrite E1, E2 in Hn.
      cbn [Zdigits2] in Hn. lia.
Qed.

(** Rounding a value that does not exceed a representable bound stays at
    or below the bound, and at the bound it returns the bound. *)
Lemma round_aux_le (mx ex : Z) (lx : location) (my : positive) (ey : Z) :
  0 <= mx -> ex <= fx (Zdigits2 mx + ex) ->
  bounded prec emax my ey = true -> ex <= ey ->
  (mx < Zpos my * 2 ^ (ey - ex) \/ (mx = Zpos my * 2 ^ (ey - ex) /\ lx = loc_Exact)) ->
  SFleb (binary_round_aux prec emax false mx ex lx) (S754_finite false my ey) = true /\
  (mx = Zpos my * 2 ^ (ey - ex) ->
   binary_round_aux prec emax false mx ex lx = S754_finite false my ey).
Proof.
  intros Hmx Hn Hb Hee Hv.
  destruct (bounded_spec _ _ Hb) as [Hcan Hey].
  pose proof (round_first mx ex lx my ey Hmx Hn Hcan Hee Hv) as H1.
  cbv zeta in H1. destruct H1 as [Hlow [He'y [Hm1 Heq1]]].
  unfold binary_round_aux.
  destruct (shr_fexp prec emax mx ex lx) as [mrs e']. cbn [fst snd] in *.
  set (m1 := round_nearest_even (shr_m mrs) (loc_of_shr_record mrs)) in *.
  pose proof (round_second m1 e' my ey Hlow He'y Hcan Hm1) as H2.
  cbv zeta in H2. destruct H2 as [Hm2 [He2 [Hle2 Heq2]]].
  destruct (shr_fexp prec emax m1 e' loc_Exact) as [mrs2 e2]. cbn [fst snd] in *.
  destruct (shr_m mrs2) as [|p|p] eqn:Ep.
  - split; [reflexivity|]. intros Heq. destruct (Heq1 Heq) as [A B].
    destruct (Heq2 A B) as [C _]. discriminate C.
  - assert (Hle : (e2 <=? emax - prec) = true).
    { apply Z.leb_le. change (emax - prec) with 971. lia. }
    rewrite Hle. split.
    + unfold SFleb, SFcompare.
      destruct (Z.compare_spec e2 ey) as [E|E|E]; [|reflexivity|lia].
      rewrite Pos.compare_cont_spec. cbn [Pos.switch_Eq].
      specialize (Hle2 E).
      destruct (Pos.compare_spec p my) as [F|F|F]; try reflexivity. lia.
    + intros Heq. destruct (Heq1 Heq) as [A B].
      destruct (Heq2 A B) as [C D]. injection C as ->. now rewrite D.
  - lia.
Qed.

(** ** Comparison of canonical positive numbers *)

Lemma bounded_digits (m : positive) (e : Z) :
  bounded prec emax m e = true ->
  -1074 <= e /\ Zpos m < 2 ^ 53 /\ (-1074 < e -> 2 ^ 52 <= Zpos m).
Proof.
  intros Hb. destruct (bounded_spec _ _ Hb) as [Hcan _].
  pose proof (digits2_pos_bounds m) as [Hlo Hhi].
  set (d := Zpos (digits2_pos m)) in *.
  assert (Hd : d <= 53) by (unfold fx in Hcan; lia).
  split; [unfold fx in Hcan; lia|]. split.
  - assert (2 ^ d <= 2 ^ 53) by (apply Z.pow_le_mono_r; lia). lia.
  - intros He. assert (d = 53) by (unfold fx in Hcan; lia).
    replace (d - 1) with 52 in Hlo by lia. exact Hlo.
Qed.

(** [<=] on canonical positive numbers, read on mantissas and exponents. *)
Lemma leb_value (ma : positive) (ea : Z) (mb : positive) (eb : Z) :
  bounded prec emax ma ea = true -> bounded prec emax mb eb = true ->
  SFleb (S754_finite false ma ea) (S754_finite false mb eb) = true ->
  ea <= eb /\ Zpos ma <= Zpos mb * 2 ^ (eb - ea) /\
  (Zpos ma = Zpos mb * 2 ^ (eb - ea) -> ma = mb /\ ea = eb).
Proof.
  intros Ha Hb. unfold SFleb, SFcompare.
  destruct (bounded_digits _ _ Ha) as [Hea [Hma _]].
  destruct (bounded_digits _ _ Hb) as [Heb [_ Hmb]].
  destruct (Z.compare_spec ea eb) as [E|E|E].
  - subst eb. rewrite Pos.compare_cont_spec. cbn [Pos.switch_Eq].
    rewrite Z.sub_diag. change (2 ^ 0) with 1.
    destruct (Pos.compare_spec ma mb) as [F|F|F]; intros H; try discriminate H;
      (split; [lia|]; split; [lia|]; intros G; split; [lia | reflexivity]).
  - intros _. specialize (Hmb ltac:(lia)).
    assert (2 ^ 1 <= 2 ^ (eb - ea)) by (apply Z.pow_le_mono_r; lia).
    change (2 ^ 1) with 2 in *.
    assert (2 ^ 53 = 2 ^ 52 * 2) by reflexivity.
    split; [lia|]. split; [nia|]. intros G. exfalso. nia.
  - discriminate.
Qed.

(** ** Multiplication and division against one *)

Lemma sf_one_bounded : bounded prec emax 4503599627370496 (-52) = true.
Proof. reflexivity. Qed.

Lemma digits_at_least_53 (x : Z) : 2 ^ 52 <= x -> 53 <= Zdigits2 x.
Proof.
  intros H. assert (Hx : 0 < x) by (assert (0 < 2 ^ 52) by reflexivity; lia).
  pose proof (Zdigits2_bounds x Hx) as [_ Hhi].
  pose proof (Zdigits2_pos x Hx).
  assert (52 < Zdigits2 x) by (apply pow2_lt_inv; lia). lia.
Qed.

Lemma mul_shift_ok (mq : positive) (eq : Z) (mm : positive) (em : Z) :
  bounded prec emax mq eq = true -> bounded prec emax mm em = true ->
  eq + em <= fx (Zdigits2 (Zpos (mq * mm)) + (eq + em)).
Proof.
  intros Hq Hm.
  destruct (bounded_digits _ _ Hq) as [Heq [_ Hq52]].
  destruct (bounded_digits _ _ Hm) as [Hem [_ Hm52]].
  destruct (Z_le_gt_dec (eq + em) (-1074)) as [Hs|Hs]; [unfold fx; lia|].
  assert (H52 : 2 ^ 52 <= Zpos (mq * mm)).
  { rewrite Pos2Z.inj_mul.
    destruct (Z_le_gt_dec eq (-1074)) as [Hc|Hc].
    - specialize (Hm52 ltac:(lia)). nia.
    - specialize (Hq52 ltac:(lia)). nia. }
  apply digits_at_least_53 in H52. unfold fx. lia.
Qed.

Lemma one_value (e : Z) : e <= -52 -> Zpos 4503599627370496 * 2 ^ (-52 - e) = 2 ^ (- e).
Proof.
  intros He. change (Zpos 4503599627370496) with (2 ^ 52).
  rewrite <- pow2_split by lia. f_equal. lia.
Qed.

(** Multiplying by a factor at most one does not increase a positive number;
    multiplying by one returns it. *)
Lemma mul_le (mq : positive) (eq : Z) (mm : positive) (em : Z) :
  bounded prec emax mq eq = true -> bounded prec emax mm em = true ->
  SFleb (S754_finite false mq eq) sf_one = true ->
  SFleb (SF64mul (S754_finite false mq eq) (S754_finite false mm em))
        (S754_finite false mm em) = true /\
  (S754_finite false mq eq = sf_one ->
   SF64mul (S754_finite false mq eq) (S754_finite false mm em) = S754_finite false mm em).
Proof.
  intros Hq Hm Hle.
  destruct (leb_value _ _ _ _ Hq sf_one_bounded Hle) as [Heq [Hv Hveq]].
  rewrite one_value in Hv, Hveq by exact Heq.
  unfold SF64mul, SFmul. cbn [xorb].
  assert (Hk : em - (eq + em) = - eq) by lia.
  assert (Hpow : 0 < 2 ^ (- eq)) by (apply pow2_pos; lia).
  destruct (round_aux_le (Zpos (mq * mm)) (eq + em) loc_Exact mm em) as [H1 H2].
  - lia.
  - now apply mul_shift_ok.
  - exact Hm.
  - lia.
  - rewrite Hk, Pos2Z.inj_mul.
    destruct (Z_lt_le_dec (Zpos mq) (2 ^ (- eq))) as [Hlt|Hge].
    + left. nia.
    + right. split; [nia | reflexivity].
  - split; [exact H1|]. intros E. apply H2.
    rewrite Hk, Pos2Z.inj_mul. injection E as -> ->. 
    change (- -52) with 52. change (Zpos 4503599627370496) with (2 ^ 52). lia.
Qed.

Lemma new_location_zero (n : Z) : new_location n 0 = loc_Exact.
Proof.
  unfold new_location. destruct (Z.even n); reflexivity.
Qed.

(** What the integer division of [SFdiv] computes. *)
Lemma div_core_spec (ma : positive) (ea : Z) (mb : positive) (eb : Z) :
  let e' := Z.min (fx (Zpos (digits2_pos ma) + ea - (Zpos (digits2_pos mb) + eb))) (ea - eb) in
  let s := ea - eb - e' in
  exists l,
    SFdiv_core_binary prec emax (Zpos ma) ea (Zpos mb) eb =
      ((Zpos ma * 2 ^ s) / Zpos mb, e', l) /\
    ((Zpos ma * 2 ^ s) mod Zpos mb = 0 -> l = loc_Exact).
Proof.
  cbv zeta. unfold SFdiv_core_binary. cbn [Zdigits2]. rewrite fexp_fx.
  set (e' := Z.min _ _). set (s := ea - eb - e').
  assert (Hs : 0 <= s) by (unfold s, e'; lia).
  assert (Hm' : match s with
                | 0 => Zpos ma
                | Zpos _ => Z.shiftl (Zpos ma) s
                | Zneg _ => 0
                end = Zpos ma * 2 ^ s).
  { destruct s as [|p|p] eqn:Es.
    - now rewrite Z.mul_1_r.
    - rewrite Z.shiftl_mul_pow2 by lia. reflexivity.
    - lia. }
  rewrite Hm'.
  unfold Z.div, Z.modulo.
  destruct (Z.div_eucl (Zpos ma * 2 ^ s) (Zpos mb)) as [q r].
  cbn [fst snd]. exists (new_location (Zpos mb) r). split; [reflexivity|].
  intros ->. apply new_location_zero.
Qed.

(** Dividing a positive number by one at least as large gives at most one,
    and dividing it by itself gives one. *)
Lemma div_le (ma : positive) (ea : Z) (mb : positive) (eb : Z) :
  bounded prec emax ma ea = true -> bounded prec emax mb eb = true ->
  SFleb (S754_finite false ma ea) (S754_finite false mb eb) = true ->
  SFleb (SF64div (S754_finite false ma ea) (S754_finite false mb eb)) sf_one = true /\
  (S754_finite false ma ea = S754_finite false mb eb ->
   SF64div (S754_finite false ma ea) (S754_finite false mb eb) = sf_one).
Proof.
  intros Ha Hb Hle.
  destruct (leb_value _ _ _ _ Ha Hb Hle) as [Hee [Hv Hveq]].
  unfold SF64div, SFdiv. cbn [xorb].
  destruct (div_core_spec ma ea mb eb) as [l [Hcore Hl]]. cbv zeta in Hcore, Hl.
  rewrite Hcore. clear Hcore.
  pose proof (digits2_pos_bounds ma) as [Halo Hahi].
  pose proof (digits2_pos_bounds mb) as [Hblo Hbhi].
  set (da := Zpos (digits2_pos ma)) in *. set (db := Zpos (digits2_pos mb)) in *.
  assert (Hda : 0 < da) by (unfold da; lia).
  assert (Hdb : 0 < db) by (unfold db; lia).
  set (e' := Z.min (fx (da + ea - (db + eb))) (ea - eb)) in *.
  set (s := ea - eb - e') in *.
  assert (Hs : 0 <= s) by (unfold s, e'; lia).
  assert (Hps : 0 < 2 ^ s) by now apply pow2_pos.
  (* magnitudes: da + ea <= db + eb *)
  assert (Hmag : da + ea <= db + eb).
  { assert (H : 2 ^ (da - 1) < 2 ^ (db + (eb - ea))).
    { rewrite pow2_split by lia.
      assert (0 < 2 ^ (eb - ea)) by (apply pow2_pos; lia). nia. }
    apply pow2_lt_inv in H; lia. }
  assert (He' : e' <= -53) by (unfold e', fx; lia).
  assert (Hpe : 0 < 2 ^ (- e')) by (apply pow2_pos; lia).
  (* the scaled dividend against the divisor *)
  assert (Hk : 2 ^ (- e') = 2 ^ (eb - ea) * 2 ^ s).
  { rewrite <- pow2_split by lia. f_equal. unfold s. lia. }
  assert (Hnum : Zpos ma * 2 ^ s <= Zpos mb * 2 ^ (- e')) by (rewrite Hk; nia).
  set (q := Zpos ma * 2 ^ s / Zpos mb) in *.
  assert (Hq0 : 0 <= q) by (apply Z.div_pos; lia).
  assert (Hqle : q <= 2 ^ (- e')).
  { apply Z.div_le_upper_bound; lia. }
  destruct (round_aux_le q e' l 4503599627370496 (-52)) as [H1 H2].
  - exact Hq0.
  - destruct (Z_le_gt_dec e' (-1074)) as [Hc|Hc]; [unfold fx; lia|].
    assert (Hs53 : 53 - da + db <= s) by (unfold s, e', fx in *; lia).
    assert (H52 : 2 ^ 52 <= q).
    { apply Z.div_le_lower_bound; [lia|].
      assert (Hp : 2 ^ (52 + db) <= 2 ^ (da - 1 + s)) by (apply Z.pow_le_mono_r; lia).
      rewrite !pow2_split in Hp by lia. nia. }
    apply digits_at_least_53 in H52. unfold fx. lia.
  - exact sf_one_bounded.
  - lia.
  - rewrite one_value by lia.
    destruct (Z_lt_le_dec q (2 ^ (- e'))) as [Hlt|Hge]; [left; exact Hlt|].
    right. split; [lia|]. apply Hl.
    assert (Hqe : q = 2 ^ (- e')) by lia.
    assert (Hmul : Zpos mb * q <= Zpos ma * 2 ^ s).
    { unfold q. apply Z.mul_div_le. lia. }
    assert (Heqn : Zpos ma * 2 ^ s = 2 ^ (- e') * Zpos mb) by nia.
    rewrite Heqn. apply Z.mod_mul. lia.
  - split; [exact H1|]. intros E. injection E as -> ->. apply H2.
    rewrite one_value by lia. unfold q.
    assert (Hs' : s = - e') by (unfold s; lia). rewrite Hs'.
    rewrite Z.mul_comm. apply Z.div_mul. lia.
Qed.

(** ** Signs *)

Lemma SFabs_round (s : bool) (m e : Z) (l : location) :
  SFabs (binary_round_aux prec emax s m e l) = binary_round_aux prec emax false m e l.
Proof.
  unfold binary_round_aux.
  destruct (shr_fexp prec emax m e l) as [mrs e'].
  destruct (shr_fexp prec emax _ e' loc_Exact) as [mrs2 e2].
  destruct (shr_m mrs2); try reflexivity.
  destruct (e2 <=? emax - prec); reflexivity.
Qed.

Lemma SFabs_mul (x y : spec_float) :
  SFabs (SF64mul x y) = SF64mul (SFabs x) (SFabs y).
Proof.
  unfold SF64mul.
  destruct x as [sx|sx| |sx mx ex], y as [sy|sy| |sy my ey];
    cbn [SFmul SFabs xorb]; try reflexivity.
  apply SFabs_round.
Qed.

Lemma SFabs_div (x y : spec_float) :
  SFabs (SF64div x y) = SF64div (SFabs x) (SFabs y).
Proof.
  unfold SF64div.
  destruct x as [sx|sx| |sx mx ex], y as [sy|sy| |sy my ey];
    cbn [SFdiv SFabs xorb]; try reflexivity.
  destruct (SFdiv_core_binary prec emax (Zpos mx) ex (Zpos my) ey) as [[mz ez] lz].
  apply SFabs_round.
Qed.

(** ** Finite numbers that are not negative *)

Lemma sf_pos_nn x : sf_pos x -> sf_nn x.
Proof. destruct x as [[|]|[|]| |[|] m e]; cbn; auto. Qed.

Lemma sf_nn_abs (x : spec_float) : sf_fin x -> sf_nn (SFabs x).
Proof. destruct x as [s|s| |s m e]; cbn; auto. Qed.

Lemma SFleb_pos (m1 : positive) (e1 : Z) (m2 : positive) (e2 : Z) :
  SFleb (S754_finite false m1 e1) (S754_finite false m2 e2) = true <->
  e1 < e2 \/ (e1 = e2 /\ (m1 <= m2)%positive).
Proof.
  unfold SFleb, SFcompare.
  destruct (Z.compare_spec e1 e2) as [E|E|E].
  - rewrite Pos.compare_cont_spec. cbn [Pos.switch_Eq].
  destruct (Pos.compare_spec m1 m2) as [F|F|F]; split; intros H;
    try discriminate H; try reflexivity; try lia.
  - split; [lia | reflexivity].
  - split; [discriminate | lia].
Qed.

Lemma SFltb_pos (m1 : positive) (e1 : Z) (m2 : positive) (e2 : Z) :
  SFltb (S754_finite false m1 e1) (S754_finite false m2 e2) = true <->
  e1 < e2 \/ (e1 = e2 /\ (m1 < m2)%positive).
Proof.
  unfold SFltb, SFcompare.
  destruct (Z.compare_spec e1 e2) as [E|E|E].
  - rewrite Pos.compare_cont_spec. cbn [Pos.switch_Eq].
    destruct (Pos.compare_spec m1 m2) as [F|F|F]; split; intros H;
      try discriminate H; try reflexivity; try lia.
  - split; [lia | reflexivity].
  - split; [discriminate | lia].
Qed.

Lemma sf_leb_refl (x : spec_float) : sf_nn x -> SFleb x x = true.
Proof.
  destruct x as [[|]|[|]| |[|] m e]; cbn [sf_nn]; try contradiction; intros _.
  - reflexivity.
  - apply SFleb_pos. right. split; [reflexivity | lia].
Qed.

Lemma sf_leb_trans (x y z : spec_float) :
  sf_nn x -> sf_nn y -> sf_nn z ->
  SFleb x y = true -> SFleb y z = true -> SFleb x z = true.
Proof.
  destruct x as [[|]|[|]| |[|] mx ex]; cbn [sf_nn]; try contradiction; intros _;
  destruct y as [[|]|[|]| |[|] my ey]; cbn [sf_nn]; try contradiction; intros _;
  destruct z as [[|]|[|]| |[|] mz ez]; cbn [sf_nn]; try contradiction; intros _;
  try (intros; reflexivity); try (intros H; discriminate H);
  try (intros _ H; discriminate H).
  rewrite !SFleb_pos. lia.
Qed.

Lemma sf_leb_total (x y : spec_float) :
  sf_nn x -> sf_nn y -> SFltb x y = false -> SFleb y x = true.
Proof.
  destruct x as [[|]|[|]| |[|] mx ex]; cbn [sf_nn]; try contradiction; intros _;
  destruct y as [[|]|[|]| |[|] my ey]; cbn [sf_nn]; try contradiction; intros _;
  try (intros; reflexivity); try (intros H; discriminate H).
  intros H. apply SFleb_pos.
  destruct (Z_lt_le_dec ey ex) as [|Hle]; [now left|].
  destruct (Z.eq_dec ex ey) as [->|Hne].
  - right. split; [reflexivity|].
    destruct (Pos.lt_total my mx) as [F|[F|F]]; try lia.
    exfalso. assert (T : SFltb (S754_finite false mx ey) (S754_finite false my ey) = true)
      by (apply SFltb_pos; right; split; [reflexivity | exact F]).
    congruence.
  - exfalso. assert (T : SFltb (S754_finite false mx ex) (S754_finite false my ey) = true)
      by (apply SFltb_pos; left; lia).
    congruence.
Qed.

Lemma sf_ltb_leb (x y : spec_float) : SFltb x y = true -> SFleb x y = true.
Proof.
  unfold SFltb, SFleb. destruct (SFcompare x y) as [[| |]|]; try discriminate; reflexivity.
Qed.

Lemma sf_leb_nlt_eq (x M : spec_float) :
  sf_pos M -> SFleb x M = true -> SFltb x M = false -> x = M.
Proof.
  destruct M as [[|]|[|]| |[|] mM eM]; cbn [sf_pos]; try contradiction; intros _.
  destruct x as [[|]|[|]| |[|] mx ex]; try (intros H; discriminate H);
    try (intros _ H; discriminate H).
  intros Hle Hlt. apply SFleb_pos in Hle.
  destruct Hle as [Hle|[-> Hle]].
  - exfalso. assert (T : SFltb (S754_finite false mx ex) (S754_finite false mM eM) = true)
      by (apply SFltb_pos; left; lia).
    congruence.
  - destruct (Pos.eq_dec mx mM) as [->|Hne]; [reflexivity|].
    exfalso. assert (T : SFltb (S754_finite false mx eM) (S754_finite false mM eM) = true)
      by (apply SFltb_pos; right; split; [reflexivity | lia]).
    congruence.
Qed.

End Rounding.

(** ** Peaks of finite buffers *)

Lemma one_spec : Prim2SF 1 = sf_one.
Proof. reflexivity. Qed.

Lemma pos_nn x : positive_finite x -> nonneg_finite x.
Proof. apply sf_pos_nn. Qed.

Lemma nn_abs (x : float) : is_finite x = true -> nonneg_finite (abs x).
Proof.
  intros H. unfold nonneg_finite. rewrite abs_spec. apply sf_nn_abs. now apply is_finite_spec.
Qed.

Lemma abs_nn (x : float) : nonneg_finite x -> abs x = x.
Proof.
  unfold nonneg_finite. intros H. apply Prim2SF_inj. rewrite abs_spec.
  destruct (Prim2SF x) as [[|]|[|]| |[|] m e]; cbn in H; try contradiction; reflexivity.
Qed.

Lemma abs_mul (x y : float) : abs (x * y) = abs x * abs y.
Proof.
  apply Prim2SF_inj. rewrite abs_spec, !mul_spec, !abs_spec. apply SFabs_mul.
Qed.

Lemma abs_div (x y : float) : abs (x / y) = abs x / abs y.
Proof.
  apply Prim2SF_inj. rewrite abs_spec, !div_spec, !abs_spec. apply SFabs_div.
Qed.

Lemma nn_positive_pos (x : float) : nonneg_finite x -> (0 <? x) = true -> positive_finite x.
Proof.
  unfold nonneg_finite, positive_finite. rewrite ltb_spec. change (Prim2SF 0) with (S754_zero false).
  destruct (Prim2SF x) as [[|]|[|]| |[|] m e]; cbn [sf_nn sf_pos]; try contradiction;
    intros _ H; try discriminate H. exact I.
Qed.

Lemma pos_bounded (x : float) m e :
  Prim2SF x = S754_finite false m e -> bounded prec emax m e = true.
Proof.
  intros H. pose proof (Prim2SF_valid x) as V. rewrite H in V. exact V.
Qed.

Lemma sf_nn_of_abs_leb (r : spec_float) :
  SFabs r = r -> SFleb r sf_one = true -> sf_nn r.
Proof.
  destruct r as [[|]|[|]| |[|] m e]; cbn [SFabs sf_nn]; intros A L;
    try discriminate A; try discriminate L; exact I.
Qed.

(** Dividing by a positive number at least as large lands in [0, 1]. *)
Lemma div_nn_le (a L : float) :
  nonneg_finite a -> positive_finite L -> (a <=? L) = true -> nonneg_finite (a / L) /\ (a / L <=? 1) = true.
Proof.
  unfold nonneg_finite, positive_finite. rewrite !leb_spec, div_spec, one_spec.
  intros Ha HL Hle.
  destruct (Prim2SF L) as [[|]|[|]| |[|] mL eL] eqn:EL; cbn [sf_pos] in HL;
    try contradiction.
  destruct (Prim2SF a) as [[|]|[|]| |[|] ma ea] eqn:Ea; cbn [sf_nn] in Ha;
    try contradiction.
  - split; [exact I | reflexivity].
  - destruct (div_le ma ea mL eL (pos_bounded _ _ _ Ea) (pos_bounded _ _ _ EL) Hle)
      as [H1 _].
    split; [|exact H1].
    apply sf_nn_of_abs_leb; [|exact H1].
    now rewrite SFabs_div.
Qed.

Lemma div_self (L : float) : positive_finite L -> L / L = 1.
Proof.
  unfold positive_finite. intros HL. apply Prim2SF_inj. rewrite div_spec, one_spec.
  destruct (Prim2SF L) as [[|]|[|]| |[|] mL eL] eqn:EL; cbn [sf_pos] in HL;
    try contradiction.
  pose proof (pos_bounded _ _ _ EL) as Hb.
  apply (div_le mL eL mL eL Hb Hb); [|reflexivity].
  apply sf_leb_refl. exact I.
Qed.

(** Multiplying a positive number by a factor in [0, 1] does not increase it. *)
Lemma mul_nn_le (q m : float) :
  nonneg_finite q -> (q <=? 1) = true -> positive_finite m -> (q * m <=? m) = true.
Proof.
  unfold nonneg_finite, positive_finite. rewrite !leb_spec, mul_spec, one_spec.
  intros Hq Hle Hm.
  destruct (Prim2SF m) as [[|]|[|]| |[|] mm em] eqn:Em; cbn [sf_pos] in Hm;
    try contradiction.
  destruct (Prim2SF q) as [[|]|[|]| |[|] mq eq] eqn:Eq; cbn [sf_nn] in Hq;
    try contradiction.
  - reflexivity.
  - apply (mul_le mq eq mm em (pos_bounded _ _ _ Eq) (pos_bounded _ _ _ Em) Hle).
Qed.

Lemma mul_one_l (m : float) : positive_finite m -> 1 * m = m.
Proof.
  unfold positive_finite. intros Hm. apply Prim2SF_inj. rewrite mul_spec, one_spec.
  destruct (Prim2SF m) as [[|]|[|]| |[|] mm em] eqn:Em; cbn [sf_pos] in Hm;
    try contradiction.
  apply (mul_le _ _ mm em sf_one_bounded (pos_bounded _ _ _ Em)); [|reflexivity].
  apply sf_leb_refl. exact I.
Qed.

(** ** The maximum of non-negative finite samples *)

Lemma nn_not_nan (x : float) : nonneg_finite x -> is_nan x = false.
Proof.
  unfold nonneg_finite. intros H. destruct (is_nan x) eqn:E; [|reflexivity].
  apply is_nan_spec in E. rewrite E in H. contradiction.
Qed.

Lemma leb_refl_nn (x : float) : nonneg_finite x -> (x <=? x) = true.
Proof. unfold nonneg_finite. rewrite leb_spec. apply sf_leb_refl. Qed.

Lemma leb_trans_nn (x y z : float) :
  nonneg_finite x -> nonneg_finite y -> nonneg_finite z -> (x <=? y) = true -> (y <=? z) = true -> (x <=? z) = true.
Proof. unfold nonneg_finite. rewrite !leb_spec. apply sf_leb_trans. Qed.

Lemma maximum_nn (acc x : float) :
  nonneg_finite acc -> nonneg_finite x ->
  nonneg_finite (np.maximum acc x) /\
  (acc <=? np.maximum acc x) = true /\ (x <=? np.maximum acc x) = true.
Proof.
  intros Ha Hx. unfold np.maximum. rewrite (nn_not_nan _ Ha).
  destruct (x <? acc) eqn:E.
  - split; [exact Ha|]. split; [now apply leb_refl_nn|].
    rewrite leb_spec. apply sf_ltb_leb. now rewrite <- ltb_spec.
  - split; [exact Hx|]. split; [|now apply leb_refl_nn].
    rewrite leb_spec. apply sf_leb_total; trivial. now rewrite <- ltb_spec.
Qed.

Lemma fold_maximum_in (l : buffer) (acc : float) :
  In (fold_left np.maximum l acc) (acc :: l).
Proof.
  revert acc. induction l as [|x l IH]; intros acc; cbn [fold_left].
  - now left.
  - destruct (IH (np.maximum acc x)) as [H|H].
    + rewrite <- H. unfold np.maximum.
      destruct (is_nan acc); [now left|].
      destruct (x <? acc); [now left | right; now left].
    + right. now right.
Qed.

Lemma fold_maximum_upper (l : buffer) : forall acc : float,
  nonneg_finite acc -> Forall nonneg_finite l ->
  nonneg_finite (fold_left np.maximum l acc) /\
  (acc <=? fold_left np.maximum l acc) = true /\
  Forall (fun x => (x <=? fold_left np.maximum l acc) = true) l.
Proof.
  induction l as [|x l IH]; intros acc Ha Hl; cbn [fold_left].
  - split; [exact Ha|]. split; [now apply leb_refl_nn | constructor].
  - inversion Hl as [|? ? Hx Hl']; subst.
    destruct (maximum_nn acc x Ha Hx) as [Hm [H1 H2]].
    destruct (IH (np.maximum acc x) Hm Hl') as [HR [H3 H4]].
    split; [exact HR|]. split.
    + now apply leb_trans_nn with (np.maximum acc x).
    + constructor; [|exact H4].
      now apply leb_trans_nn with (np.maximum acc x).
Qed.

Lemma leb_not_nan_l (x y : float) : (x <=? y) = true -> is_nan x = false.
Proof.
  intros H. destruct (is_nan x) eqn:E; [|reflexivity].
  apply is_nan_eq in E. subst x. rewrite leb_spec in H. discriminate.
Qed.

Lemma maximum_below (M acc x : float) :
  positive_finite M -> (acc <=? M) = true -> (x <=? M) = true ->
  (np.maximum acc x <=? M) = true /\
  (acc = M -> np.maximum acc x = M) /\ (x = M -> np.maximum acc x = M).
Proof.
  intros HM Ha Hx. unfold np.maximum. rewrite (leb_not_nan_l _ _ Ha).
  destruct (x <? acc) eqn:E.
  - split; [exact Ha|]. split; [auto|].
    intros ->. exfalso. apply ltb_not_geb in E. unfold geb in E. congruence.
  - split; [exact Hx|]. split; [|auto].
    intros ->. apply Prim2SF_inj. apply sf_leb_nlt_eq.
    + exact HM.
    + now rewrite <- leb_spec.
    + now rewrite <- ltb_spec.
Qed.

(** A bound that is attained is the maximum. *)
Lemma fold_maximum_attained (M : float) (l : buffer) : forall acc : float,
  positive_finite M -> (acc <=? M) = true -> Forall (fun x => (x <=? M) = true) l ->
  acc = M \/ In M l -> fold_left np.maximum l acc = M.
Proof.
  induction l as [|x l IH]; intros acc HM Ha Hl Hin; cbn [fold_left].
  - destruct Hin as [H|[]]. exact H.
  - inversion Hl as [|? ? Hx Hl']; subst.
    destruct (maximum_below M acc x HM Ha Hx) as [H1 [H2 H3]].
    apply IH; trivial.
    destruct Hin as [H|[H|H]]; [left; auto | left; auto | now right].
Qed.

Lemma max_attained (M : float) (l : buffer) :
  positive_finite M -> Forall (fun x => (x <=? M) = true) l -> In M l -> np.max l = Ok M.
Proof.
  intros HM Hl Hin. destruct l as [|x l]; [contradiction|].
  cbn [np.max]. f_equal. inversion Hl; subst.
  apply fold_maximum_attained; trivial.
Qed.

Lemma max_upper (l : buffer) (R : float) :
  Forall nonneg_finite l -> np.max l = Ok R ->
  nonneg_finite R /\ In R l /\ Forall (fun x => (x <=? R) = true) l.
Proof.
  intros Hl H. destruct l as [|x l]; [discriminate|].
  cbn [np.max] in H. injection H as <-. inversion Hl as [|? ? Hx Hl']; subst.
  destruct (fold_maximum_upper l x Hx Hl') as [U1 [U2 U3]].
  split; [exact U1|]. split; [apply fold_maximum_in|].
  constructor; assumption.
Qed.

Lemma nn_of_abs_finite (m d : float) : m = abs d -> is_finite m = true -> nonneg_finite m.
Proof.
  intros -> H. apply is_finite_spec in H. unfold nonneg_finite. rewrite abs_spec in *.
  destruct (Prim2SF d) as [s|s| |s mm e]; cbn in *; auto.
Qed.

Lemma pos_of_threshold (L : float) : nonneg_finite L -> (librosa.tiny <=? L) = true -> positive_finite L.
Proof.
  unfold nonneg_finite, positive_finite. rewrite leb_spec.
  destruct (Prim2SF L) as [[|]|[|]| |[|] m e]; cbn [sf_nn sf_pos]; try contradiction;
    intros _ H; [discriminate H | exact I].
Qed.

(** ** Half the sample rate *)

Lemma half_spec : Prim2SF 0.5 = sf_half.
Proof. reflexivity. Qed.

Lemma two_spec : Prim2SF 2 = sf_two.
Proof. reflexivity. Qed.

Section HalfRate.
Local Open Scope Z_scope.

Lemma bounded_intro (m : positive) (e : Z) :
  fx (Zpos (digits2_pos m) + e) = e -> e <= 971 -> bounded prec emax m e = true.
Proof.
  intros H1 H2. unfold bounded, canonical_mantissa.
  rewrite andb_true_iff, Z.eqb_eq, Z.leb_le, fexp_fx. split; assumption.
Qed.

(** Halving a number of exponent above the smallest one is exact. *)
Lemma mul_half (m : positive) (e : Z) :
  bounded prec emax m e = true -> -1074 < e ->
  SF64mul sf_half (S754_finite false m e) = S754_finite false m (e - 1).
Proof.
  intros Hb He. destruct (bounded_spec _ _ Hb) as [Hcan Hmax].
  assert (Hb' : bounded prec emax m (e - 1) = true).
  { apply bounded_intro; unfold fx in *; lia. }
  unfold SF64mul, sf_half, SFmul. cbn [xorb].
  apply (round_aux_le (Zpos (4503599627370496 * m)) (-53 + e) loc_Exact m (e - 1)).
  - lia.
  - apply mul_shift_ok; [reflexivity | exact Hb].
  - exact Hb'.
  - lia.
  - right. split; [|reflexivity].
    rewrite Pos2Z.inj_mul. replace (e - 1 - (-53 + e)) with 52 by lia.
    change (Zpos 4503599627370496) with (2 ^ 52). lia.
  - rewrite Pos2Z.inj_mul. replace (e - 1 - (-53 + e)) with 52 by lia.
    change (Zpos 4503599627370496) with (2 ^ 52). lia.
Qed.

(** A number divided by its half is two. *)
Lemma div_by_half (m : positive) (e : Z) :
  SF64div (S754_finite false m e) (S754_finite false m (e - 1)) = sf_two.
Proof.
  unfold SF64div, SFdiv. cbn [xorb].
  destruct (div_core_spec m e m (e - 1)) as [l [Hcore Hl]]. cbv zeta in Hcore, Hl.
  replace (Zpos (digits2_pos m) + e - (Zpos (digits2_pos m) + (e - 1))) with 1 in * by lia.
  replace (e - (e - 1)) with 1 in * by lia.
  change (Z.min (fx 1) 1) with (-52) in *. change (1 - -52) with 53 in *.
  assert (Hq : Zpos m * 2 ^ 53 / Zpos m = 2 ^ 53).
  { rewrite Z.mul_comm. apply Z.div_mul. lia. }
  assert (Hr : (Zpos m * 2 ^ 53) mod Zpos m = 0).
  { rewrite Z.mul_comm. apply Z.mod_mul. lia. }
  rewrite Hcore, Hq, (Hl Hr).
  apply (round_aux_le (2 ^ 53) (-52) loc_Exact 4503599627370496 (-51)).
  - lia.
  - apply Z.leb_le. reflexivity.
  - reflexivity.
  - lia.
  - right. split; reflexivity.
  - reflexivity.
Qed.

End HalfRate.

(** At a finite sample rate of at least 1, a cutoff equal to the rate has
    normalised cutoff exactly 2. *)
Lemma cutoff_at_rate (rate : float) :
  is_finite rate = true -> (1 <=? rate) = true ->
  truediv rate (0.5 * rate) = Ok 2.
Proof.
  intros Hfin Hone.
  apply is_finite_spec in Hfin. rewrite leb_spec in Hone.
  change (Prim2SF 1) with sf_one in Hone.
  destruct (Prim2SF rate) as [s|s| |s m e] eqn:E; cbn [sf_fin] in Hfin;
    try contradiction.
  - destruct s; discriminate Hone.
  - destruct s; [discriminate Hone|].
    pose proof (Prim2SF_valid rate) as Hb. rewrite E in Hb. cbn [valid_binary] in Hb.
    destruct (leb_value _ _ _ _ sf_one_bounded Hb Hone) as [He _].
    assert (Hnyq : Prim2SF (0.5 * rate) = S754_finite false m (e - 1)).
    { rewrite mul_spec, half_spec, E. apply mul_half; [exact Hb | lia]. }
    unfold truediv.
    assert (Hnz : (0.5 * rate =? 0) = false).
    { rewrite eqb_spec, Hnyq. reflexivity. }
    rewrite Hnz. f_equal. apply Prim2SF_inj.
    rewrite div_spec, Hnyq, E, two_spec. apply div_by_half.
Qed.

(** * The claims *)

Section Claims.

Variable butter : Z -> float -> result coeffs.
Variable lfilter : list float -> list float -> buffer -> result buffer.

(** C2 (length preservation).  Whenever [process_audio] returns a buffer, it
    has as many samples as the input: [lfilter] gives one output per input
    sample, and the gain compensation maps over the filtered buffer. *)
Theorem length_preserved :
  lfilter_length lfilter ->
  forall data fs cutoff out,
    process_audio butter lfilter data fs cutoff = Ok out ->
    length out = length data.
Proof.
  intros Hlen data fs cutoff out H.
  unfold process_audio in H.
  apply bind_ok in H. destruct H as [filtered [Hf Hg]].
  apply gain_compensation_length in Hg. rewrite Hg.
  unfold butter_lowpass_filter in Hf.
  apply bind_ok in Hf. destruct Hf as [nc [_ Hf]].
  apply bind_ok in Hf. destruct Hf as [ba [_ Hf]].
  exact (Hlen _ _ _ _ Hf).
Qed.

(** C4 (empty buffer).  On a buffer of length 0 the pipeline never returns:
    either the filter stage raises, or [np.max] of the empty array raises
    [ValueError]. *)
Theorem empty_buffer_raises :
  forall fs cutoff,
    ~ returns (process_audio butter lfilter [] fs cutoff) /\
    (returns (butter_lowpass_filter butter lfilter [] cutoff fs default_order) ->
     process_audio butter lfilter [] fs cutoff = Raise ValueError).
Proof.
  intros fs cutoff. unfold process_audio.
  destruct (butter_lowpass_filter butter lfilter [] cutoff fs default_order)
    as [filtered|e]; simpl.
  - split; [intros [v Hv]; discriminate | reflexivity].
  - split; [intros [v Hv]; discriminate | intros [v Hv]; discriminate].
Qed.

(** C9 (NaN in the input).  If the original buffer holds a NaN, the peak
    [np.max(np.abs(data))] is NaN, the test [max_val > 0] is false, and the
    pipeline returns what the filter stage returned, with no gain
    compensation. *)
Theorem nan_disables_gain_compensation :
  forall data fs cutoff,
    existsb is_nan data = true ->
    np.max (np.abs data) = Ok nan /\
    (0 <? nan) = false /\
    (forall filtered, gain_compensation data filtered = Ok filtered) /\
    process_audio butter lfilter data fs cutoff =
      butter_lowpass_filter butter lfilter data cutoff fs default_order.
Proof.
  intros data fs cutoff H. repeat split.
  - now apply max_abs_nan.
  - intros filtered. now apply gain_compensation_nan.
  - unfold process_audio.
    destruct (butter_lowpass_filter butter lfilter data cutoff fs default_order)
      as [filtered|e]; simpl; [|reflexivity].
    now apply gain_compensation_nan.
Qed.

(** C10 (the clamp threshold is strict).  Whenever the normalised cutoff
    [cutoff / (0.5 * fs)] is below one -- however close to one, and in
    particular when it is zero or negative -- it is handed to [butter] as it
    is. *)
Theorem cutoff_below_one_unclamped :
  forall data cutoff fs order nc,
    truediv cutoff (0.5 * fs) = Ok nc ->
    (nc <? 1) = true \/ (nc <=? 0) = true ->
    butter_lowpass_filter butter lfilter data cutoff fs order =
      (ba <- butter order nc ;; lfilter (num ba) (den ba) data).
Proof.
  intros data cutoff fs order nc Hnc Hlt.
  assert (H : (nc <? 1) = true).
  { destruct Hlt as [Hlt|Hle]; [exact Hlt | now apply nonpositive_below_one]. }
  rewrite (butter_lowpass_filter_unfold _ _ _ _ _ _ _ Hnc).
  now rewrite (ltb_not_geb _ _ H).
Qed.

(** C3 (cutoff clamping).  Whenever the normalised cutoff is at or above one
    (cutoff at or above Nyquist), [butter] is called with 0.99, the design is
    returned, and the stage is that design applied to the data.  In
    particular this is what happens when the cutoff equals a finite sample
    rate of at least 1. *)
Theorem cutoff_clamped_at_nyquist :
  butter_designs butter ->
  (forall data cutoff fs order nc,
     (0 < order)%Z ->
     truediv cutoff (0.5 * fs) = Ok nc ->
     (nc >=? 1) = true ->
     exists ba,
       butter order 0.99 = Ok ba /\
       butter_lowpass_filter butter lfilter data cutoff fs order =
         lfilter (num ba) (den ba) data) /\
  (forall data rate order,
     (0 < order)%Z ->
     is_finite rate = true -> (1 <=? rate) = true ->
     exists ba,
       butter order 0.99 = Ok ba /\
       butter_lowpass_filter butter lfilter data rate rate order =
         lfilter (num ba) (den ba) data).
Proof.
  intros Hdes.
  assert (General : forall data cutoff fs order nc,
            (0 < order)%Z ->
            truediv cutoff (0.5 * fs) = Ok nc ->
            (nc >=? 1) = true ->
            exists ba,
              butter order 0.99 = Ok ba /\
              butter_lowpass_filter butter lfilter data cutoff fs order =
                lfilter (num ba) (den ba) data).
  { intros data cutoff fs order nc Hord Hnc Hge.
    destruct clamp_value_in_range as [H0 H1].
    destruct (Hdes order 0.99 Hord H0 H1) as [ba Hba].
    exists ba. split; [exact Hba|].
    rewrite (butter_lowpass_filter_unfold _ _ _ _ _ _ _ Hnc).
    rewrite Hge, Hba. reflexivity. }
  split; [exact General|].
  intros data rate order Hord Hfin Hone.
  exact (General data rate rate order 2 Hord (cutoff_at_rate rate Hfin Hone) eq_refl).
Qed.

(** C7, amended (the error contract of the filter design).  The stage raises
    [ZeroDivisionError] when half the sample rate is zero, and [ValueError]
    when the normalised cutoff is zero or negative; with a positive
    normalised cutoff and a positive order the design is returned, at 0.99
    when the normalised cutoff reaches one. *)
Theorem design_error_contract :
  butter_rejects butter -> butter_designs butter ->
  forall data cutoff fs order,
    ((0.5 * fs =? 0) = true ->
       butter_lowpass_filter butter lfilter data cutoff fs order =
         Raise ZeroDivisionError) /\
    ((0.5 * fs =? 0) = false -> (cutoff / (0.5 * fs) <=? 0) = true ->
       butter_lowpass_filter butter lfilter data cutoff fs order =
         Raise ValueError) /\
    ((0.5 * fs =? 0) = false -> (0 <? cutoff / (0.5 * fs)) = true ->
     (0 < order)%Z ->
       exists ba,
         butter order (if cutoff / (0.5 * fs) >=? 1 then 0.99
                       else cutoff / (0.5 * fs)) = Ok ba /\
         butter_lowpass_filter butter lfilter data cutoff fs order =
           lfilter (num ba) (den ba) data).
Proof.
  intros Hrej Hdes data cutoff fs order. repeat split.
  - apply butter_lowpass_filter_zero_nyquist.
  - intros Hnz Hle.
    rewrite (butter_lowpass_filter_unfold _ _ _ _ _ _ _ (truediv_nonzero cutoff _ Hnz)).
    rewrite (ltb_not_geb _ _ (nonpositive_below_one _ Hle)).
    rewrite (Hrej order _); [reflexivity|]. now rewrite Hle.
  - intros Hnz Hpos Hord.
    rewrite (butter_lowpass_filter_unfold _ _ _ _ _ _ _ (truediv_nonzero cutoff _ Hnz)).
    set (nc := cutoff / (0.5 * fs)) in *.
    assert (Hin : (0 <? (if nc >=? 1 then 0.99 else nc)) = true /\
                  ((if nc >=? 1 then 0.99 else nc) <? 1) = true).
    { destruct (nc >=? 1) eqn:E.
      - exact clamp_value_in_range.
      - split; [exact Hpos|]. apply not_geb_ltb; [|reflexivity|exact E].
        exact (ltb_not_nan_r _ _ Hpos). }
    destruct Hin as [H0 H1].
    destruct (Hdes order _ Hord H0 H1) as [ba Hba].
    exists ba. split; [exact Hba|]. rewrite Hba. reflexivity.
Qed.

End Claims.


Section SilenceAndGain.

Variable butter : Z -> float -> result coeffs.
Variable lfilter : list float -> list float -> buffer -> result buffer.

Lemma max_abs_zeros n : (0 < n)%nat -> np.max (np.abs (np.zeros n)) = Ok 0.
Proof.
  destruct n as [|n]; [lia|]. intros _. simpl. f_equal.
  induction n as [|n IH]; simpl; [reflexivity | exact IH].
Qed.

Lemma gain_compensation_silence n filtered :
  (0 < n)%nat -> gain_compensation (np.zeros n) filtered = Ok filtered.
Proof.
  intros H. unfold gain_compensation. rewrite (max_abs_zeros n H). reflexivity.
Qed.

Lemma process_audio_empty fs cutoff :
  process_audio butter lfilter [] fs cutoff =
    (_ <- butter_lowpass_filter butter lfilter [] cutoff fs default_order ;;
     Raise ValueError).
Proof. reflexivity. Qed.

(** C5, amended (silence invariance).  For every rate and cutoff whose
    normalised cutoff exists and is positive, the pipeline on [n] zeros
    returns the filtered buffer as it is (the peak is 0, so the gain branch
    is skipped), and that buffer equals [zeros(n)].  The statement is for
    [n >= 1]: what the code does on the empty buffer is the matter of C4
    and is left out here. *)
Theorem silence_stays_silence :
  butter_designs butter -> butter_finite butter -> lfilter_silence lfilter ->
  forall n fs cutoff nc,
    (0 < n)%nat ->
    truediv cutoff (0.5 * fs) = Ok nc ->
    (0 <? nc) = true ->
    exists out,
      process_audio butter lfilter (np.zeros n) fs cutoff = Ok out /\
      butter_lowpass_filter butter lfilter (np.zeros n) cutoff fs default_order = Ok out /\
      np.array_equal out (np.zeros n) = true.
Proof.
  intros Hdes Hfin Hsil n fs cutoff nc Hn Hnc Hpos.
  unfold process_audio.
  rewrite (butter_lowpass_filter_unfold _ _ _ _ _ _ _ Hnc).
  assert (Hin : (0 <? (if nc >=? 1 then 0.99 else nc)) = true /\
                ((if nc >=? 1 then 0.99 else nc) <? 1) = true).
  { destruct (nc >=? 1) eqn:E.
    - exact clamp_value_in_range.
    - split; [exact Hpos|]. apply not_geb_ltb; [|reflexivity|exact E].
      exact (ltb_not_nan_r _ _ Hpos). }
  destruct Hin as [H0 H1].
  destruct (Hdes default_order _ eq_refl H0 H1) as [ba Hba].
  pose proof (Hfin _ _ H0 H1 Hba) as Hf.
  destruct (Hsil _ _ n Hn Hf) as [y [Hy Heq]].
  exists y. rewrite Hba. simpl. rewrite Hy. simpl.
  repeat split; [now apply gain_compensation_silence | exact Heq].
Qed.

(** C6, amended (the gain-compensation step).  The step returns for every
    non-empty original and every non-empty finite filtered buffer; a NaN in
    the original makes it return the filtered buffer unchanged, whatever
    that buffer holds; but with a peak above zero a NaN or infinity in the
    filtered buffer makes it raise [ParameterError]. *)
Theorem gain_compensation_contract :
  forall data filtered,
    (data <> [] -> filtered <> [] -> forallb np.isfinite filtered = true ->
       returns (gain_compensation data filtered)) /\
    (existsb is_nan data = true ->
       gain_compensation data filtered = Ok filtered) /\
    (forall max_val, np.max (np.abs data) = Ok max_val ->
       (0 <? max_val) = true -> forallb np.isfinite filtered = false ->
       gain_compensation data filtered = Raise ParameterError).
Proof.
  intros data filtered. repeat split.
  - intros Hd Hf Hfin. unfold gain_compensation.
    destruct data as [|x data]; [now contradiction Hd|].
    cbn [np.abs map np.max bind].
    destruct (0 <? _).
    + unfold librosa.normalize. rewrite Hfin.
      destruct filtered as [|v filtered]; [now contradiction Hf|].
      cbn [negb np.abs map np.max bind]. eexists. reflexivity.
    + eexists. reflexivity.
  - apply gain_compensation_nan.
  - intros max_val Hmax Hpos Hnf. unfold gain_compensation.
    rewrite Hmax. cbn [bind]. rewrite Hpos.
    unfold librosa.normalize. rewrite Hnf. reflexivity.
Qed.

End SilenceAndGain.

Section PeakClaim.

Variable butter : Z -> float -> result coeffs.
Variable lfilter : list float -> list float -> buffer -> result buffer.

Lemma process_audio_rescaled data fs cutoff filtered out max_val length :
  np.max (np.abs data) = Ok max_val -> (0 <? max_val) = true ->
  butter_lowpass_filter butter lfilter data cutoff fs default_order = Ok filtered ->
  np.max (np.abs filtered) = Ok length -> (librosa.tiny <=? length) = true ->
  process_audio butter lfilter data fs cutoff = Ok out ->
  forallb np.isfinite filtered = true /\
  out = map (fun v => v * max_val) (map (fun s => s / length) filtered).
Proof.
  intros Hm Hmpos Hf HL Htiny Hp.
  unfold process_audio in Hp. rewrite Hf in Hp. cbn [bind] in Hp.
  unfold gain_compensation in Hp. rewrite Hm in Hp. cbn [bind] in Hp.
  rewrite Hmpos in Hp. unfold librosa.normalize in Hp.
  destruct (forallb np.isfinite filtered); cbn [negb] in Hp; [|discriminate Hp].
  rewrite HL in Hp. cbn [bind] in Hp.
  assert (Hlt : (length <? librosa.tiny) = false).
  { destruct (length <? librosa.tiny) eqn:E; [|reflexivity].
    apply ltb_not_geb in E. unfold geb in E. congruence. }
  rewrite Hlt in Hp. injection Hp as <-. split; reflexivity.
Qed.

(** C1, amended (peak restoration).  Let the peak of the original buffer be
    finite and strictly positive, and let the pipeline return.  If the peak
    of the filtered buffer is at least [librosa.tiny] -- the threshold under
    which librosa leaves a buffer unscaled -- then the peak of the output is
    the peak of the original, exactly: every output magnitude
    [|s| / length * max_val] is at most [max_val], and the sample that
    carries the filtered peak comes out as [1 * max_val]. *)
Theorem peak_restored :
  forall data fs cutoff filtered out max_val length,
    np.max (np.abs data) = Ok max_val ->
    is_finite max_val = true -> (0 <? max_val) = true ->
    butter_lowpass_filter butter lfilter data cutoff fs default_order = Ok filtered ->
    np.max (np.abs filtered) = Ok length -> (librosa.tiny <=? length) = true ->
    process_audio butter lfilter data fs cutoff = Ok out ->
    np.max (np.abs out) = Ok max_val.
Proof.
  intros data fs cutoff filtered out m L Hm Hmfin Hmpos Hf HL Htiny Hp.
  destruct (process_audio_rescaled _ _ _ _ _ _ _ Hm Hmpos Hf HL Htiny Hp) as [Ffin ->].
  (* the peak of the original is a positive finite number *)
  assert (Pm : positive_finite m).
  { apply nn_positive_pos; [|exact Hmpos].
    destruct (np.abs data) as [|x l] eqn:E; [discriminate|].
    cbn [np.max] in Hm. injection Hm as Hm.
    pose proof (fold_maximum_in l x) as Hin. rewrite Hm, <- E in Hin.
    unfold np.abs in Hin. apply in_map_iff in Hin. destruct Hin as [d [Hd _]].
    now apply nn_of_abs_finite with d. }
  (* so is the peak of the filtered buffer, which bounds its samples *)
  assert (HA : Forall nonneg_finite (np.abs filtered)).
  { apply Forall_forall. intros a Ha. unfold np.abs in Ha.
    apply in_map_iff in Ha. destruct Ha as [s [<- Hs]].
    apply nn_abs. rewrite forallb_forall in Ffin. now apply Ffin. }
  destruct (max_upper _ _ HA HL) as [HLnn [HLin HLub]].
  assert (PL : positive_finite L) by now apply pos_of_threshold.
  (* magnitudes of the output *)
  assert (Habs : np.abs (map (fun v => v * m) (map (fun s => s / L) filtered)) =
                 map (fun a => a / L * m) (np.abs filtered)).
  { unfold np.abs. rewrite !map_map. apply map_ext. intros s.
    rewrite abs_mul, abs_div, (abs_nn L HLnn), (abs_nn m (pos_nn _ Pm)). reflexivity. }
  rewrite Habs. apply max_attained; [exact Pm| |].
  - apply Forall_forall. intros b Hb. apply in_map_iff in Hb.
    destruct Hb as [a [<- Ha]].
    rewrite Forall_forall in HA, HLub.
    destruct (div_nn_le a L (HA a Ha) PL (HLub a Ha)) as [Hq Hq1].
    now apply mul_nn_le.
  - apply in_map_iff. exists L. split; [|exact HLin].
    now rewrite (div_self L PL), (mul_one_l m Pm).
Qed.

End PeakClaim.

(** * The claims on concrete inputs *)

(** C4 on the reference instance: the empty buffer at 44100 Hz and 3000 Hz. *)
Example empty_buffer_reference :
  sample.run [] sample.rate sample.cutoff = Raise ValueError.
Proof. reflexivity. Qed.

(** C2 on [sample.tone] at 44100 Hz with a 3000 Hz cutoff. *)
Lemma length_preserved_witness :
  sample.run sample.tone sample.rate sample.cutoff = Ok sample.tone_out /\
  length sample.tone_out = length sample.tone.
Proof.
  assert (H : sample.run sample.tone sample.rate sample.cutoff = Ok sample.tone_out)
    by (vm_compute; reflexivity).
  split; [exact H|].
  exact (length_preserved reference.butter reference.lfilter
           reference_lfilter_length _ _ _ _ H).
Defined.

(** C3 with a cutoff of 30000 Hz at 44100 Hz (normalised cutoff above one),
    and with the cutoff equal to the sample rate. *)
Lemma cutoff_clamped_at_nyquist_witness :
  (exists nc, truediv 30000 (0.5 * sample.rate) = Ok nc /\ (nc >=? 1) = true) /\
  (exists ba,
     reference.butter default_order 0.99 = Ok ba /\
     sample.filtered sample.tone sample.rate 30000 =
       reference.lfilter (num ba) (den ba) sample.tone) /\
  (exists ba,
     reference.butter default_order 0.99 = Ok ba /\
     sample.filtered sample.tone sample.rate sample.rate =
       reference.lfilter (num ba) (den ba) sample.tone).
Proof.
  pose (C := cutoff_clamped_at_nyquist reference.butter reference.lfilter
               reference_butter_designs).
  split; [exists (30000 / (0.5 * sample.rate)); split; reflexivity|].
  split.
  - exact (proj1 C sample.tone 30000 sample.rate default_order
             (30000 / (0.5 * sample.rate)) eq_refl eq_refl eq_refl).
  - exact (proj2 C sample.tone sample.rate default_order eq_refl eq_refl eq_refl).
Defined.

(** C5, amended, on three zeros. *)
Lemma silence_stays_silence_witness :
  exists out,
    sample.run (np.zeros 3) sample.rate sample.cutoff = Ok out /\
    sample.filtered (np.zeros 3) sample.rate sample.cutoff = Ok out /\
    np.array_equal out (np.zeros 3) = true.
Proof.
  exact (silence_stays_silence reference.butter reference.lfilter
           reference_butter_designs reference_butter_finite
           reference_lfilter_silence 3 sample.rate sample.cutoff
           (sample.cutoff / (0.5 * sample.rate))
           (Nat.lt_0_succ 2) eq_refl eq_refl).
Defined.

(** C5 as stated fails where the code validates nothing.  Three zeros at
    44100 Hz with a cutoff of 0 Hz raise [ValueError], on the reference
    instance and for every [butter] that makes the range check; and at a
    sample rate of 0 every instance raises [ZeroDivisionError]. *)
Lemma silence_fails_at_zero_cutoff :
  sample.run (np.zeros 3) sample.rate 0 = Raise ValueError /\
  (~ exists butter lfilter,
       butter_rejects butter /\
       returns (process_audio butter lfilter (np.zeros 3) sample.rate 0)) /\
  sample.run (np.zeros 3) 0 sample.cutoff = Raise ZeroDivisionError /\
  (~ exists butter lfilter,
       returns (process_audio butter lfilter (np.zeros 3) 0 sample.cutoff)).
Proof.
  split; [vm_compute; reflexivity|]. split; [|split; [vm_compute; reflexivity|]].
  - intros [butter [lfilter [Hrej [out H]]]].
    unfold process_audio in H.
    rewrite (butter_lowpass_filter_unfold butter lfilter (np.zeros 3) 0 sample.rate
               default_order 0 eq_refl) in H.
    change (if 0 >=? 1 then 0.99 else 0) with 0 in H.
    rewrite (Hrej default_order 0 eq_refl) in H. discriminate H.
  - intros [butter [lfilter [out H]]].
    unfold process_audio in H.
    rewrite (butter_lowpass_filter_zero_nyquist butter lfilter (np.zeros 3)
               sample.cutoff 0 default_order eq_refl) in H.
    discriminate H.
Qed.

(** C6 as stated fails on an infinite sample: librosa rejects the non-finite
    filtered buffer, in the step alone and in the whole pipeline. *)
Lemma gain_compensation_rejects_infinity :
  gain_compensation [infinity] [infinity] = Raise ParameterError /\
  sample.run [infinity] sample.rate sample.cutoff = Raise ParameterError.
Proof. split; vm_compute; reflexivity. Qed.

(** C7 as stated fails at cutoff 0 with rate 44100 and order 5: the reference
    instance raises [ValueError], and so does every [butter] that makes the
    range check. *)
Lemma design_rejects_zero_cutoff :
  (0 <? sample.rate) = true /\
  sample.filtered sample.tone sample.rate 0 = Raise ValueError /\
  ~ exists butter lfilter,
      butter_rejects butter /\
      returns (butter_lowpass_filter butter lfilter sample.tone 0 sample.rate
                 default_order).
Proof.
  split; [reflexivity|]. split; [vm_compute; reflexivity|].
  intros [butter [lfilter [Hrej [out H]]]].
  rewrite (butter_lowpass_filter_unfold butter lfilter sample.tone 0 sample.rate
             default_order 0 eq_refl) in H.
  change (if 0 >=? 1 then 0.99 else 0) with 0 in H.
  rewrite (Hrej default_order 0 eq_refl) in H. discriminate H.
Qed.

(** C7, amended, on the reference instance: rate 0, cutoff 0, and a valid
    pair. *)
Lemma design_error_contract_witness :
  sample.filtered sample.tone 0 sample.cutoff = Raise ZeroDivisionError /\
  sample.filtered sample.tone sample.rate 0 = Raise ValueError /\
  exists ba,
    reference.butter default_order (sample.cutoff / (0.5 * sample.rate)) = Ok ba /\
    sample.filtered sample.tone sample.rate sample.cutoff =
      reference.lfilter (num ba) (den ba) sample.tone.
Proof.
  pose (C := design_error_contract reference.butter reference.lfilter
               reference_butter_rejects reference_butter_designs sample.tone).
  split; [|split].
  - exact (proj1 (C sample.cutoff 0 default_order) eq_refl).
  - exact (proj1 (proj2 (C 0 sample.rate default_order)) eq_refl eq_refl).
  - exact (proj2 (proj2 (C sample.cutoff sample.rate default_order))
             eq_refl eq_refl eq_refl).
Defined.





(** C9 on a buffer that starts with a NaN. *)
Lemma nan_disables_gain_compensation_witness :
  existsb is_nan sample.with_nan = true /\
  sample.run sample.with_nan sample.rate sample.cutoff =
    sample.filtered sample.with_nan sample.rate sample.cutoff.
Proof.
  split; [reflexivity|].
  exact (proj2 (proj2 (proj2
           (nan_disables_gain_compensation reference.butter reference.lfilter
              sample.with_nan sample.rate sample.cutoff eq_refl)))).
Defined.

(** C10 at the largest normalised cutoff below one. *)
Lemma cutoff_below_one_unclamped_witness :
  truediv sample.below_one (0.5 * 2) = Ok sample.below_one /\
  (sample.below_one <? 1) = true /\
  sample.filtered sample.tone 2 sample.below_one =
    (ba <- reference.butter default_order sample.below_one ;;
     reference.lfilter (num ba) (den ba) sample.tone).
Proof.
  split; [reflexivity|]. split; [reflexivity|].
  exact (cutoff_below_one_unclamped reference.butter reference.lfilter
           sample.tone sample.below_one 2 default_order sample.below_one
           eq_refl (or_introl eq_refl)).
Defined.

(** C1, amended, on [sample.tone]: the output peak is the input peak, 1. *)
Lemma peak_restored_witness :
  np.max (np.abs sample.tone) = Ok 1 /\
  np.max (np.abs sample.tone_filtered) = Ok sample.tone_filtered_peak /\
  (librosa.tiny <=? sample.tone_filtered_peak) = true /\
  sample.run sample.tone sample.rate sample.cutoff = Ok sample.tone_out /\
  np.max (np.abs sample.tone_out) = Ok 1.
Proof.
  assert (Hm : np.max (np.abs sample.tone) = Ok 1) by reflexivity.
  assert (Hf : sample.filtered sample.tone sample.rate sample.cutoff =
               Ok sample.tone_filtered) by (vm_compute; reflexivity).
  assert (HL : np.max (np.abs sample.tone_filtered) = Ok sample.tone_filtered_peak)
    by (vm_compute; reflexivity).
  assert (Ht : (librosa.tiny <=? sample.tone_filtered_peak) = true)
    by (vm_compute; reflexivity).
  assert (Hp : sample.run sample.tone sample.rate sample.cutoff = Ok sample.tone_out)
    by (vm_compute; reflexivity).
  split; [exact Hm|]. split; [exact HL|]. split; [exact Ht|]. split; [exact Hp|].
  exact (peak_restored reference.butter reference.lfilter sample.tone sample.rate
           sample.cutoff sample.tone_filtered sample.tone_out 1
           sample.tone_filtered_peak Hm eq_refl eq_refl Hf HL Ht Hp).
Defined.

(** C1 as stated fails.  On [sample.faint], 44100 Hz and 3000 Hz the filtered
    sample is below [librosa.tiny], so librosa leaves it unscaled: the output
    is [[0]], whose peak 0 is not within 1e-6 of the input peak.  And at a
    sample rate of 0 no SciPy makes the pipeline return at all. *)
Lemma peak_not_restored_below_threshold :
  (np.max (np.abs sample.faint) = Ok 0x1p-1015 /\ (0 <? 0x1p-1015) = true) /\
  sample.run sample.faint sample.rate sample.cutoff = Ok [0] /\
  np.max (np.abs [0]) = Ok 0 /\
  sample.close 0 0x1p-1015 = false /\
  ~ exists butter lfilter,
      returns (process_audio butter lfilter sample.tone 0 sample.cutoff).
Proof.
  split; [split; reflexivity|].
  split; [vm_compute; reflexivity|].
  split; [reflexivity|]. split; [reflexivity|].
  intros [butter [lfilter [out H]]].
  unfold process_audio in H.
  rewrite (butter_lowpass_filter_zero_nyquist butter lfilter sample.tone
             sample.cutoff 0 default_order eq_refl) in H.
  discriminate H.
Qed.

(** * Further properties of the code *)

(** ** Rounding from below *)

Section RoundingUp.
Local Open Scope Z_scope.

Lemma fx_mono (a b : Z) : a <= b -> fx a <= fx b.
Proof. unfold fx. lia. Qed.

Lemma round_nearest_even_ge (m : Z) (l : location) : m <= round_nearest_even m l.
Proof.
  destruct (round_nearest_even_range m l) as [-> | ->]; lia.
Qed.

(** The exponent chosen for a mantissa that carries at least a representable
    bound is at least the exponent of the bound. *)
Lemma fx_above (m e : Z) (my : positive) (ey : Z) :
  0 < m -> fx (Zpos (digits2_pos my) + ey) = ey ->
  Zpos my * 2 ^ (ey - Z.min e ey) <= m * 2 ^ (e - Z.min e ey) ->
  ey <= fx (Zdigits2 m + e).
Proof.
  intros Hm Hcan Hle.
  pose proof (digits2_pos_bounds my) as [Hdy _].
  pose proof (Zdigits2_bounds m Hm) as [_ Hdm].
  pose proof (Zdigits2_pos m Hm) as Hpos.
  set (c := Z.min e ey) in *.
  assert (Hc1 : 0 <= ey - c) by (unfold c; lia).
  assert (Hc2 : 0 <= e - c) by (unfold c; lia).
  assert (H : 2 ^ (Zpos (digits2_pos my) - 1 + (ey - c)) < 2 ^ (Zdigits2 m + (e - c))).
  { rewrite !pow2_split by lia.
    assert (0 < 2 ^ (ey - c)) by (apply pow2_pos; lia).
    assert (0 < 2 ^ (e - c)) by (apply pow2_pos; lia). nia. }
  apply pow2_lt_inv in H; [|lia].
  rewrite <- Hcan. apply fx_mono. lia.
Qed.

(** Truncating a mantissa to the format keeps every bit of a number that
    fills the format: the result has at least 53 digits' worth. *)
Lemma truncate_keeps_top (m : Z) (d : Z) :
  53 <= d -> 2 ^ (d - 1) <= m -> 2 ^ 52 <= m / 2 ^ (d - 53).
Proof.
  intros Hd Hm. apply Z.div_le_lower_bound; [apply pow2_pos; lia|].
  rewrite <- pow2_split by lia. replace (d - 53 + 52) with (d - 1) by lia. exact Hm.
Qed.

(** Rounding a value that is at least a representable bound stays at or
    above the bound (an overflow to infinity included). *)
Lemma round_aux_ge (mx ex : Z) (lx : location) (my : positive) (ey : Z) :
  0 < mx -> ex <= fx (Zdigits2 mx + ex) ->
  bounded prec emax my ey = true ->
  Zpos my * 2 ^ (ey - Z.min ex ey) <= mx * 2 ^ (ex - Z.min ex ey) ->
  SFleb (S754_finite false my ey) (binary_round_aux prec emax false mx ex lx) = true.
Proof.
  intros Hmx Hn Hb Hv.
  destruct (bounded_spec _ _ Hb) as [Hcan Hey].
  destruct (bounded_digits _ _ Hb) as [Hylow [Hmy53 _]].
  pose proof (fx_above mx ex my ey Hmx Hcan Hv) as He'y.
  pose proof (Zdigits2_bounds mx Hmx) as [Hdlo Hdhi].
  pose proof (Zdigits2_pos mx Hmx) as Hdpos.
  unfold binary_round_aux, shr_fexp. rewrite fexp_fx.
  set (e' := fx (Zdigits2 mx + ex)) in *.
  set (n := e' - ex).
  assert (Hn0 : 0 <= n) by (unfold n; lia).
  destruct (shr_spec (shr_record_of_loc mx lx) ex n) as [He1 [Hm1 _]];
    [rewrite shr_record_of_loc_m; lia | exact Hn0 |].
  rewrite shr_record_of_loc_m in Hm1.
  destruct (shr (shr_record_of_loc mx lx) ex n) as [mrs e1]. cbn [fst snd] in *.
  assert (He1' : e1 = e') by (unfold n in He1; lia). clear He1. subst e1.
  (* the truncated mantissa still carries the bound *)
  assert (Hm' : Zpos my <= shr_m mrs * 2 ^ (e' - ey) /\ 0 < shr_m mrs).
  { rewrite Hm1. destruct (Z.eq_dec e' ey) as [E|E].
    - rewrite E, Z.sub_diag, Z.mul_1_r.
      assert (Hmin : Z.min ex ey = ex) by lia. rewrite Hmin, Z.sub_diag, Z.mul_1_r in Hv.
      assert (Hk : ey - ex = n) by (unfold n; lia). rewrite Hk in Hv.
      assert (Zpos my <= mx / 2 ^ n).
      { apply Z.div_le_lower_bound; [apply pow2_pos; lia | lia]. }
      lia.
    - assert (Hbig : -1074 < e') by lia.
      assert (Hd53 : n = Zdigits2 mx - 53) by (unfold n, e', fx in *; lia).
      assert (H52 : 2 ^ 52 <= mx / 2 ^ n).
      { rewrite Hd53. apply truncate_keeps_top; [lia | exact Hdlo]. }
      assert (Hp : 2 ^ 1 <= 2 ^ (e' - ey)) by (apply Z.pow_le_mono_r; lia).
      change (2 ^ 1) with 2 in Hp.
      assert (2 ^ 53 = 2 ^ 52 * 2) by reflexivity.
      assert (0 < 2 ^ 52) by reflexivity.
      split; nia. }
  destruct Hm' as [Hm'v Hm'pos].
  set (m1 := round_nearest_even (shr_m mrs) (loc_of_shr_record mrs)).
  assert (Hm1ge : shr_m mrs <= m1) by apply round_nearest_even_ge.
  assert (Hm1pos : 0 < m1) by lia.
  rewrite fexp_fx.
  set (n2 := fx (Zdigits2 m1 + e') - e').
  pose proof (Zdigits2_bounds m1 Hm1pos) as [H1lo H1hi].
  pose proof (Zdigits2_pos m1 Hm1pos) as H1pos.
  assert (Hp0 : 0 < 2 ^ (e' - ey)) by (apply pow2_pos; lia).
  destruct (Z_le_gt_dec n2 0) as [Hn2|Hn2].
  - rewrite (shr_nonpos _ _ _ Hn2). cbn [fst snd shr_record_of_loc shr_m].
    destruct m1 as [|p|p] eqn:Ep; try lia.
    destruct (e' <=? emax - prec); [|reflexivity].
    apply SFleb_pos. destruct (Z.eq_dec ey e') as [E|E]; [right | left; lia].
    split; [exact E|]. rewrite E, Z.sub_diag, Z.mul_1_r in Hm'v. lia.
  - destruct (shr_spec (shr_record_of_loc m1 loc_Exact) e' n2) as [He2 [Hm2 _]];
      [rewrite shr_record_of_loc_m; lia | lia |].
    rewrite shr_record_of_loc_m in Hm2.
    destruct (shr (shr_record_of_loc m1 loc_Exact) e' n2) as [mrs2 e2].
    cbn [fst snd] in *.
    assert (Hd53 : n2 = Zdigits2 m1 - 53) by (unfold n2, fx in *; lia).
    assert (H52 : 2 ^ 52 <= shr_m mrs2).
    { rewrite Hm2, Hd53. apply truncate_keeps_top; [lia | exact H1lo]. }
    assert (0 < 2 ^ 52) by reflexivity.
    destruct (shr_m mrs2) as [|p|p]; try lia.
    destruct (e2 <=? emax - prec); [|reflexivity].
    apply SFleb_pos. left. lia.
Qed.

End RoundingUp.

Section DivisionBounds.
Local Open Scope Z_scope.

(** The quotient [SFdiv] computes has enough digits for its exponent. *)
Lemma div_shift_ok (ma : positive) (ea : Z) (mb : positive) (eb : Z) :
  let e' := Z.min (fx (Zpos (digits2_pos ma) + ea - (Zpos (digits2_pos mb) + eb))) (ea - eb) in
  let s := ea - eb - e' in
  e' <= fx (Zdigits2 (Zpos ma * 2 ^ s / Zpos mb) + e') /\
  (-1074 < e' -> 2 ^ 52 <= Zpos ma * 2 ^ s / Zpos mb).
Proof.
  cbv zeta.
  pose proof (digits2_pos_bounds ma) as [Halo Hahi].
  pose proof (digits2_pos_bounds mb) as [Hblo Hbhi].
  set (da := Zpos (digits2_pos ma)) in *. set (db := Zpos (digits2_pos mb)) in *.
  assert (Hda : 0 < da) by (unfold da; lia).
  assert (Hdb : 0 < db) by (unfold db; lia).
  set (e' := Z.min (fx (da + ea - (db + eb))) (ea - eb)).
  set (s := ea - eb - e').
  assert (Hs : 0 <= s) by (unfold s, e'; lia).
  assert (Hps : 0 < 2 ^ s) by now apply pow2_pos.
  assert (Hbig : -1074 < e' -> 2 ^ 52 <= Zpos ma * 2 ^ s / Zpos mb).
  { intros Hc.
    assert (Hs53 : 53 - da + db <= s) by (unfold s, e', fx in *; lia).
    apply Z.div_le_lower_bound; [lia|].
    assert (Hp : 2 ^ (52 + db) <= 2 ^ (da - 1 + s)) by (apply Z.pow_le_mono_r; lia).
    rewrite !pow2_split in Hp by lia. nia. }
  split; [|exact Hbig].
  destruct (Z_le_gt_dec e' (-1074)) as [Hc|Hc]; [unfold fx; lia|].
  specialize (Hbig ltac:(lia)). apply digits_at_least_53 in Hbig. unfold fx. lia.
Qed.

(** Dividing a positive number by one that is not larger gives at least one. *)
Lemma div_ge_one (ma : positive) (ea : Z) (mb : positive) (eb : Z) :
  bounded prec emax ma ea = true -> bounded prec emax mb eb = true ->
  SFleb (S754_finite false mb eb) (S754_finite false ma ea) = true ->
  SFleb sf_one (SF64div (S754_finite false ma ea) (S754_finite false mb eb)) = true.
Proof.
  intros Ha Hb Hle.
  destruct (leb_value _ _ _ _ Hb Ha Hle) as [Hee [Hv _]].
  unfold SF64div, SFdiv. cbn [xorb].
  destruct (div_core_spec ma ea mb eb) as [l [Hcore _]]. cbv zeta in Hcore.
  rewrite Hcore. clear Hcore.
  destruct (div_shift_ok ma ea mb eb) as [Hshift Hbig]. cbv zeta in Hshift, Hbig.
  pose proof (digits2_pos_bounds ma) as [Halo Hahi].
  pose proof (digits2_pos_bounds mb) as [Hblo Hbhi].
  set (da := Zpos (digits2_pos ma)) in *. set (db := Zpos (digits2_pos mb)) in *.
  assert (Hda : 0 < da) by (unfold da; lia).
  assert (Hdb : 0 < db) by (unfold db; lia).
  set (e' := Z.min (fx (da + ea - (db + eb))) (ea - eb)) in *.
  set (s := ea - eb - e') in *.
  assert (Hs : 0 <= s) by (unfold s, e'; lia).
  assert (Hps : 0 < 2 ^ s) by now apply pow2_pos.
  assert (Hmag : db + eb <= da + ea).
  { assert (H : 2 ^ (db - 1) < 2 ^ (da + (ea - eb))).
    { rewrite pow2_split by lia.
      assert (0 < 2 ^ (ea - eb)) by (apply pow2_pos; lia). nia. }
    apply pow2_lt_inv in H; lia. }
  assert (He' : -53 <= e') by (unfold e', fx; lia).
  set (q := Zpos ma * 2 ^ s / Zpos mb) in *.
  assert (H52 : 2 ^ 52 <= q) by (apply Hbig; lia).
  assert (P52 : 0 < 2 ^ 52) by reflexivity.
  apply round_aux_ge.
  - lia.
  - exact Hshift.
  - exact sf_one_bounded.
  - change (Zpos 4503599627370496) with (2 ^ 52).
    destruct (Z_le_gt_dec e' (-52)) as [Hc|Hc].
    + assert (Hmin : Z.min e' (-52) = e') by lia.
      rewrite Hmin, Z.sub_diag, Z.mul_1_r, <- pow2_split by lia.
      replace (52 + (-52 - e')) with (- e') by lia.
      unfold q. apply Z.div_le_lower_bound; [lia|].
      assert (Hk : 2 ^ s = 2 ^ (ea - eb) * 2 ^ (- e')).
      { rewrite <- pow2_split by lia. f_equal; unfold s; lia. }
      rewrite Hk. assert (0 < 2 ^ (- e')) by (apply pow2_pos; lia). nia.
    + assert (Hmin : Z.min e' (-52) = -52) by lia.
      rewrite Hmin, Z.sub_diag, Z.mul_1_r.
      assert (0 < 2 ^ (e' - -52)) by (apply pow2_pos; lia). nia.
Qed.

(** A quotient of positive numbers whose exponents are not too far apart
    does not underflow to zero. *)
Lemma div_positive (ma : positive) (ea : Z) (mb : positive) (eb : Z) :
  bounded prec emax mb eb = true -> -1021 <= ea - eb ->
  SFltb (S754_zero false) (SF64div (S754_finite false ma ea) (S754_finite false mb eb)) = true.
Proof.
  intros Hb Hexp.
  destruct (bounded_digits _ _ Hb) as [_ [Hmb _]].
  assert (H : SFleb (S754_finite false 1 (-1074))
                (SF64div (S754_finite false ma ea) (S754_finite false mb eb)) = true).
  { unfold SF64div, SFdiv. cbn [xorb].
    destruct (div_core_spec ma ea mb eb) as [l [Hcore _]]. cbv zeta in Hcore.
    rewrite Hcore. clear Hcore.
    destruct (div_shift_ok ma ea mb eb) as [Hshift Hbig]. cbv zeta in Hshift, Hbig.
    pose proof (digits2_pos_bounds ma) as [Halo Hahi].
    pose proof (digits2_pos_bounds mb) as [Hblo Hbhi].
    set (da := Zpos (digits2_pos ma)) in *. set (db := Zpos (digits2_pos mb)) in *.
    set (e' := Z.min (fx (da + ea - (db + eb))) (ea - eb)) in *.
    set (s := ea - eb - e') in *.
    assert (He' : -1074 <= e') by (unfold e', fx; lia).
    set (q := Zpos ma * 2 ^ s / Zpos mb) in *.
    assert (P52 : 0 < 2 ^ 52) by reflexivity.
    assert (Hq : 1 <= q).
    { destruct (Z_le_gt_dec e' (-1074)) as [Hc|Hc]; [|specialize (Hbig ltac:(lia)); lia].
      assert (Hs : 53 <= s) by (unfold s; lia).
      unfold q. apply Z.div_le_lower_bound; [lia|].
      assert (Hp : 2 ^ 53 <= 2 ^ s) by (apply Z.pow_le_mono_r; lia).
      assert (2 ^ s <= Zpos ma * 2 ^ s) by nia. lia. }
    apply round_aux_ge.
    - lia.
    - exact Hshift.
    - reflexivity.
    - assert (Hmin : Z.min e' (-1074) = -1074) by lia.
      rewrite Hmin, Z.sub_diag. change (Zpos 1 * 2 ^ 0) with 1.
      assert (0 < 2 ^ (e' - -1074)) by (apply pow2_pos; lia). nia. }
  destruct (SF64div _ _) as [s|s| |s m e]; try discriminate H;
    try (destruct s; discriminate H); destruct s; try reflexivity; discriminate H.
Qed.

End DivisionBounds.

(** A finite number above zero is positive and finite. *)
Lemma positive_finite_intro (x : float) :
  is_finite x = true -> (0 <? x) = true -> positive_finite x.
Proof.
  intros Hf Hp. apply is_finite_spec in Hf. rewrite ltb_spec in Hp.
  change (Prim2SF 0) with (S754_zero false) in Hp. unfold positive_finite.
  destruct (Prim2SF x) as [s|s| |s m e]; cbn [sf_fin] in Hf; try contradiction;
    destruct s; try discriminate Hp. exact I.
Qed.

(** Whatever is at least a positive finite number is positive, and either
    finite or infinite. *)
Lemma above_positive (a L : float) :
  positive_finite a -> (a <=? L) = true ->
  positive_finite L \/ Prim2SF L = S754_infinity false.
Proof.
  unfold positive_finite. rewrite leb_spec. intros Ha Hle.
  destruct (Prim2SF a) as [[|]|[|]| |[|] ma ea]; cbn [sf_pos] in Ha; try contradiction.
  destruct (Prim2SF L) as [[|]|[|]| |[|] mL eL]; try discriminate Hle;
    [right; reflexivity | left; exact I].
Qed.

(** A cutoff at or above a positive finite divisor has quotient at least one. *)
Lemma quotient_at_least_one (a L : float) :
  positive_finite a -> (a <=? L) = true -> (L / a >=? 1) = true.
Proof.
  intros Ha Hle. destruct (above_positive a L Ha Hle) as [HL|HL].
  - unfold positive_finite, geb in *. rewrite leb_spec in *.
    rewrite div_spec. change (Prim2SF 1) with sf_one.
    destruct (Prim2SF a) as [[|]|[|]| |[|] ma ea] eqn:Ea; cbn [sf_pos] in Ha;
      try contradiction.
    destruct (Prim2SF L) as [[|]|[|]| |[|] mL eL] eqn:EL; cbn [sf_pos] in HL;
      try contradiction.
    apply div_ge_one; [exact (pos_bounded _ _ _ EL) | exact (pos_bounded _ _ _ Ea) | exact Hle].
  - unfold positive_finite, geb in *. rewrite leb_spec, div_spec, HL.
    change (Prim2SF 1) with sf_one.
    destruct (Prim2SF a) as [[|]|[|]| |[|] ma ea]; cbn [sf_pos] in Ha;
      try contradiction. reflexivity.
Qed.

(** A finite cutoff of at least 4 over a positive finite divisor does not
    underflow: the quotient is above zero. *)
Lemma quotient_positive (c nyq : float) :
  is_finite c = true -> (4 <=? c) = true -> positive_finite nyq ->
  (0 <? c / nyq) = true.
Proof.
  intros Hf H4 Hn. apply is_finite_spec in Hf.
  rewrite leb_spec in H4. change (Prim2SF 4) with sf_four in H4.
  rewrite ltb_spec, div_spec. change (Prim2SF 0) with (S754_zero false).
  unfold positive_finite in Hn.
  destruct (Prim2SF nyq) as [[|]|[|]| |[|] mn en] eqn:En; cbn [sf_pos] in Hn;
    try contradiction.
  destruct (Prim2SF c) as [s|s| |s mc ec] eqn:Ec; cbn [sf_fin] in Hf;
    try contradiction.
  - destruct s; discriminate H4.
  - destruct s; [discriminate H4|].
    assert (B4 : bounded prec emax 4503599627370496 (-50) = true) by reflexivity.
    destruct (leb_value _ _ _ _ B4 (pos_bounded _ _ _ Ec) H4) as [He _].
    pose proof (pos_bounded _ _ _ En) as Bn.
    destruct (bounded_spec _ _ Bn) as [_ Hen].
    apply div_positive; [exact Bn | lia].
Qed.

(** Half of a finite sample rate of at least 1 is positive and finite. *)
Lemma nyquist_positive_finite (fs : float) :
  is_finite fs = true -> (1 <=? fs) = true ->
  positive_finite (0.5 * fs) /\ (0.5 * fs =? 0) = false /\ is_finite (0.5 * fs) = true.
Proof.
  intros Hfin Hone.
  apply is_finite_spec in Hfin. rewrite leb_spec in Hone.
  change (Prim2SF 1) with sf_one in Hone.
  destruct (Prim2SF fs) as [s|s| |s m e] eqn:E; cbn [sf_fin] in Hfin;
    try contradiction.
  - destruct s; discriminate Hone.
  - destruct s; [discriminate Hone|].
    pose proof (pos_bounded _ _ _ E) as Hb.
    destruct (leb_value _ _ _ _ sf_one_bounded Hb Hone) as [He _].
    assert (Hnyq : Prim2SF (0.5 * fs) = S754_finite false m (e - 1)).
    { rewrite mul_spec, half_spec, E. apply mul_half; [exact Hb | lia]. }
    unfold positive_finite. rewrite is_finite_spec, eqb_spec, Hnyq.
    split; [exact I|]. split; [reflexivity | exact I].
Qed.

(** ** The output against the peak of the input *)

Section OutputBound.

Lemma tiny_nn : nonneg_finite librosa.tiny.
Proof. unfold nonneg_finite. vm_compute. exact I. Qed.

Lemma one_pos : positive_finite 1.
Proof. unfold positive_finite. rewrite one_spec. exact I. Qed.

Lemma below_tiny_below_one (L : float) :
  nonneg_finite L -> (L <? librosa.tiny) = true -> (L <=? 1) = true.
Proof.
  intros HL H.
  apply leb_trans_nn with librosa.tiny;
    [exact HL | exact tiny_nn | exact (pos_nn _ one_pos) | | reflexivity].
  rewrite leb_spec. apply sf_ltb_leb. rewrite <- ltb_spec. exact H.
Qed.

Lemma not_below_tiny (L : float) :
  nonneg_finite L -> (L <? librosa.tiny) = false -> (librosa.tiny <=? L) = true.
Proof.
  intros HL H. rewrite leb_spec. apply sf_leb_total; [exact HL | exact tiny_nn |].
  rewrite <- ltb_spec. exact H.
Qed.

(** The peak of a buffer, when finite and above zero, is a positive finite
    number. *)
Lemma peak_positive_finite (data : buffer) (m : float) :
  np.max (np.abs data) = Ok m -> is_finite m = true -> (0 <? m) = true ->
  positive_finite m.
Proof.
  intros Hm Hfin Hpos. apply nn_positive_pos; [|exact Hpos].
  destruct (np.abs data) as [|x l] eqn:E; [discriminate|].
  cbn [np.max] in Hm. injection Hm as Hm.
  pose proof (fold_maximum_in l x) as Hin. rewrite Hm, <- E in Hin.
  unfold np.abs in Hin. apply in_map_iff in Hin. destruct Hin as [d [Hd _]].
  now apply nn_of_abs_finite with d.
Qed.

Lemma abs_all_nn (S : buffer) :
  forallb np.isfinite S = true -> Forall nonneg_finite (np.abs S).
Proof.
  intros Ffin. apply Forall_forall. intros a Ha. unfold np.abs in Ha.
  apply in_map_iff in Ha. destruct Ha as [s [<- Hs]].
  apply nn_abs. rewrite forallb_forall in Ffin. now apply Ffin.
Qed.

(** The divisor librosa uses is positive and bounds every magnitude. *)
Lemma normalize_divisor (S : buffer) (L : float) :
  forallb np.isfinite S = true -> np.max (np.abs S) = Ok L ->
  let D := if L <? librosa.tiny then 1 else L in
  positive_finite D /\ Forall (fun a => (a <=? D) = true) (np.abs S).
Proof.
  intros Ffin HL. cbv zeta.
  pose proof (abs_all_nn S Ffin) as HA.
  destruct (max_upper _ _ HA HL) as [HLnn [HLin HLub]].
  destruct (L <? librosa.tiny) eqn:E.
  - split; [exact one_pos|].
    rewrite Forall_forall in *. intros a Ha.
    apply leb_trans_nn with L;
      [exact (HA a Ha) | exact HLnn | exact (pos_nn _ one_pos) | exact (HLub a Ha) |].
    now apply below_tiny_below_one.
  - split; [|exact HLub].
    apply pos_of_threshold; [exact HLnn | now apply not_below_tiny].
Qed.

Lemma gain_compensation_bound (data filtered out : buffer) (m : float) :
  np.max (np.abs data) = Ok m -> is_finite m = true -> (0 <? m) = true ->
  gain_compensation data filtered = Ok out ->
  Forall (fun v => (abs v <=? m) = true) out.
Proof.
  intros Hm Hfin Hpos H.
  pose proof (peak_positive_finite data m Hm Hfin Hpos) as Pm.
  unfold gain_compensation in H. rewrite Hm in H. cbn [bind] in H.
  rewrite Hpos in H. unfold librosa.normalize in H.
  destruct (forallb np.isfinite filtered) eqn:Ffin; cbn [negb] in H; [|discriminate H].
  destruct (np.max (np.abs filtered)) as [L|e] eqn:HL; cbn [bind] in H; [|discriminate H].
  injection H as <-.
  destruct (normalize_divisor filtered L Ffin HL) as [PD HD].
  pose proof (abs_all_nn filtered Ffin) as HA.
  set (D := if L <? librosa.tiny then 1 else L) in *.
  apply Forall_forall. intros v Hv.
  apply in_map_iff in Hv. destruct Hv as [q [<- Hq]].
  apply in_map_iff in Hq. destruct Hq as [s [<- Hs]].
  rewrite abs_mul, abs_div, (abs_nn D (pos_nn _ PD)), (abs_nn m (pos_nn _ Pm)).
  assert (Ha : In (abs s) (np.abs filtered)) by (unfold np.abs; now apply in_map).
  rewrite Forall_forall in HA, HD.
  destruct (div_nn_le (abs s) D (HA _ Ha) PD (HD _ Ha)) as [Hn Hle].
  now apply mul_nn_le.
Qed.

End OutputBound.

Section OutputBoundTheorem.

Variable butter : Z -> float -> result coeffs.
Variable lfilter : list float -> list float -> buffer -> result buffer.

(** X1 (no sample above the input peak).  When the peak of the original
    buffer is finite and above zero and [process_audio] returns, every output
    sample has a magnitude of at most that peak -- whether librosa divided by
    the peak of the filtered buffer or, that peak being under
    [librosa.tiny], left the buffer unscaled. *)
Theorem output_within_input_peak :
  forall data fs cutoff out max_val,
    np.max (np.abs data) = Ok max_val ->
    is_finite max_val = true -> (0 <? max_val) = true ->
    process_audio butter lfilter data fs cutoff = Ok out ->
    Forall (fun v => (abs v <=? max_val) = true) out.
Proof.
  intros data fs cutoff out m Hm Hfin Hpos H.
  unfold process_audio in H. apply bind_ok in H. destruct H as [filtered [_ Hg]].
  exact (gain_compensation_bound data filtered out m Hm Hfin Hpos Hg).
Qed.

End OutputBoundTheorem.

(** X1 on [sample.tone] (peak 1) and on [sample.faint], where the filtered
    sample is under [librosa.tiny]. *)
Lemma output_within_input_peak_witness :
  Forall (fun v => (abs v <=? 1) = true) sample.tone_out /\
  Forall (fun v => (abs v <=? 0x1p-1015) = true) [0].
Proof.
  split.
  - assert (Hp : process_audio reference.butter reference.lfilter sample.tone
                   sample.rate sample.cutoff = Ok sample.tone_out) by (vm_compute; reflexivity).
    exact (output_within_input_peak reference.butter reference.lfilter sample.tone
             sample.rate sample.cutoff sample.tone_out 1 eq_refl eq_refl eq_refl Hp).
  - assert (Hp : process_audio reference.butter reference.lfilter sample.faint
                   sample.rate sample.cutoff = Ok [0]) by (vm_compute; reflexivity).
    exact (output_within_input_peak reference.butter reference.lfilter sample.faint
             sample.rate sample.cutoff [0] 0x1p-1015 eq_refl eq_refl eq_refl Hp).
Defined.

(** ** Signs and the running maximum *)

Section PositivePeak.

Lemma positive_nonzero (x : float) : positive_finite x -> (x =? 0) = false.
Proof.
  unfold positive_finite. rewrite eqb_spec. change (Prim2SF 0) with (S754_zero false).
  destruct (Prim2SF x) as [[|]|[|]| |[|] m e]; cbn [sf_pos]; try contradiction.
  reflexivity.
Qed.

Lemma not_nan_spec (x : float) : is_nan x = false <-> Prim2SF x <> S754_nan.
Proof.
  split.
  - intros H A. apply is_nan_spec in A. congruence.
  - intros H. destruct (is_nan x) eqn:E; [|reflexivity].
    apply is_nan_spec in E. contradiction.
Qed.

(** A magnitude above zero belongs to a sample that is not zero. *)
Lemma abs_positive_nonzero (d : float) : (0 <? abs d) = true -> (d =? 0) = false.
Proof.
  rewrite ltb_spec, eqb_spec, abs_spec. change (Prim2SF 0) with (S754_zero false).
  destruct (Prim2SF d) as [[|]|[|]| |[|] m e]; cbn [SFabs]; intros H;
    try discriminate H; reflexivity.
Qed.

(** A sample that is neither NaN nor zero has a magnitude above zero. *)
Lemma nonzero_abs_positive (d : float) :
  is_nan d = false -> (d =? 0) = false -> (0 <? abs d) = true.
Proof.
  rewrite not_nan_spec, ltb_spec, eqb_spec, abs_spec.
  change (Prim2SF 0) with (S754_zero false).
  destruct (Prim2SF d) as [[|]|[|]| |[|] m e]; cbn [SFabs]; intros Hn H;
    try discriminate H; try reflexivity; now contradiction Hn.
Qed.

Lemma abs_not_nan (d : float) : is_nan d = false -> is_nan (abs d) = false.
Proof.
  rewrite !not_nan_spec, abs_spec.
  destruct (Prim2SF d) as [[|]|[|]| |[|] m e]; cbn [SFabs]; intros H; try discriminate;
    exact H.
Qed.

(** Above zero, and not below a number: that number is above zero too. *)
Lemma positive_lower (acc x : float) :
  (0 <? acc) = true -> is_nan x = false -> (x <? acc) = false -> (0 <? x) = true.
Proof.
  rewrite not_nan_spec, !ltb_spec. change (Prim2SF 0) with (S754_zero false).
  destruct (Prim2SF acc) as [[|]|[|]| |[|] ma ea]; intros Ha; try discriminate Ha;
    destruct (Prim2SF x) as [[|]|[|]| |[|] mx ex]; intros Hn H;
    try discriminate H; try reflexivity; now contradiction Hn.
Qed.

Lemma positive_upper (acc x : float) :
  (0 <? x) = true -> (x <? acc) = true -> (0 <? acc) = true.
Proof.
  rewrite !ltb_spec. change (Prim2SF 0) with (S754_zero false).
  destruct (Prim2SF x) as [[|]|[|]| |[|] mx ex]; intros Hx; try discriminate Hx;
    destruct (Prim2SF acc) as [[|]|[|]| |[|] ma ea]; intros H;
    try discriminate H; reflexivity.
Qed.

Lemma maximum_not_nan (acc x : float) :
  is_nan acc = false -> is_nan x = false -> is_nan (np.maximum acc x) = false.
Proof.
  intros Ha Hx. unfold np.maximum. rewrite Ha. now destruct (x <? acc).
Qed.

Lemma maximum_positive (acc x : float) :
  is_nan acc = false -> is_nan x = false ->
  (0 <? acc) = true \/ (0 <? x) = true -> (0 <? np.maximum acc x) = true.
Proof.
  intros Ha Hx H. unfold np.maximum. rewrite Ha.
  destruct (x <? acc) eqn:E; destruct H as [H|H]; trivial.
  - now apply positive_upper with x.
  - now apply positive_lower with acc.
Qed.

Lemma fold_maximum_positive (l : buffer) : forall acc : float,
  is_nan acc = false -> existsb is_nan l = false ->
  (0 <? acc) = true \/ existsb (fun x => 0 <? x) l = true ->
  (0 <? fold_left np.maximum l acc) = true.
Proof.
  induction l as [|x l IH]; intros acc Ha Hl H; cbn [fold_left existsb] in *.
  - destruct H as [H|H]; [exact H | discriminate H].
  - apply orb_false_iff in Hl. destruct Hl as [Hx Hl].
    apply IH; [now apply maximum_not_nan | exact Hl |].
    destruct H as [H|H].
    + left. apply maximum_positive; auto.
    + apply orb_true_iff in H. destruct H as [H|H]; [|now right].
      left. apply maximum_positive; auto.
Qed.

Lemma abs_no_nan (data : buffer) :
  existsb is_nan data = false -> existsb is_nan (np.abs data) = false.
Proof.
  induction data as [|d data IH]; cbn [np.abs map existsb]; [trivial|].
  intros H. apply orb_false_iff in H. destruct H as [Hd H].
  apply orb_false_iff. split; [now apply abs_not_nan | now apply IH].
Qed.

Lemma abs_some_positive (data : buffer) :
  existsb is_nan data = false -> existsb (fun x => negb (x =? 0)) data = true ->
  existsb (fun x => 0 <? x) (np.abs data) = true.
Proof.
  induction data as [|d data IH]; cbn [np.abs map existsb]; [trivial|].
  intros Hn H. apply orb_false_iff in Hn. destruct Hn as [Hd Hn].
  apply orb_true_iff in H. apply orb_true_iff. destruct H as [H|H].
  - left. apply nonzero_abs_positive; [exact Hd|]. now destruct (d =? 0).
  - right. now apply IH.
Qed.

End PositivePeak.

(** X4 (when the gain is compensated).  The test [max_val > 0] of
    [process_audio] succeeds exactly when the buffer holds no NaN and at
    least one sample that is not zero; an infinite sample counts. *)
Theorem gain_applied_iff :
  forall data max_val,
    np.max (np.abs data) = Ok max_val ->
    ((0 <? max_val) = true <->
     existsb is_nan data = false /\
     existsb (fun x => negb (x =? 0)) data = true).
Proof.
  intros data m Hm. split.
  - intros Hpos. split.
    + destruct (existsb is_nan data) eqn:E; [|reflexivity].
      rewrite (max_abs_nan data E) in Hm. injection Hm as <-. discriminate Hpos.
    + destruct (np.abs data) as [|x l] eqn:E; [discriminate Hm|].
      cbn [np.max] in Hm. injection Hm as Hm.
      pose proof (fold_maximum_in l x) as Hin. rewrite Hm, <- E in Hin.
      unfold np.abs in Hin. apply in_map_iff in Hin. destruct Hin as [d [Hd Hin]].
      apply existsb_exists. exists d. split; [exact Hin|].
      rewrite <- Hd in Hpos. now rewrite (abs_positive_nonzero d Hpos).
  - intros [Hn Hz].
    pose proof (abs_no_nan data Hn) as Hn'.
    pose proof (abs_some_positive data Hn Hz) as Hz'.
    destruct (np.abs data) as [|x l]; [discriminate Hm|].
    cbn [np.max] in Hm. injection Hm as <-.
    cbn [existsb] in Hn', Hz'.
    apply orb_false_iff in Hn'. destruct Hn' as [Hx Hl].
    apply fold_maximum_positive; [exact Hx | exact Hl |].
    apply orb_true_iff in Hz'. exact Hz'.
Qed.

(** X4 on [sample.tone], on silence and on a buffer with an infinite sample. *)
Lemma gain_applied_iff_witness :
  ((0 <? 1) = true <->
     existsb is_nan sample.tone = false /\
     existsb (fun x => negb (x =? 0)) sample.tone = true) /\
  ((0 <? 0) = true <->
     existsb is_nan (np.zeros 2) = false /\
     existsb (fun x => negb (x =? 0)) (np.zeros 2) = true) /\
  ((0 <? infinity) = true <->
     existsb is_nan [0; neg_infinity] = false /\
     existsb (fun x => negb (x =? 0)) [0; neg_infinity] = true).
Proof.
  split; [|split].
  - exact (gain_applied_iff sample.tone 1 eq_refl).
  - exact (gain_applied_iff (np.zeros 2) 0 eq_refl).
  - exact (gain_applied_iff [0; neg_infinity] infinity eq_refl).
Defined.

Section PipelineOutcome.

Variable butter : Z -> float -> result coeffs.
Variable lfilter : list float -> list float -> buffer -> result buffer.

Lemma butter_lowpass_filter_length data cutoff fs order filtered :
  lfilter_length lfilter ->
  butter_lowpass_filter butter lfilter data cutoff fs order = Ok filtered ->
  length filtered = length data.
Proof.
  intros Hlen Hf. unfold butter_lowpass_filter in Hf.
  apply bind_ok in Hf. destruct Hf as [nc [_ Hf]].
  apply bind_ok in Hf. destruct Hf as [ba [_ Hf]].
  exact (Hlen _ _ _ _ Hf).
Qed.

(** X3 (when the pipeline returns).  With an [lfilter] that keeps the
    length, [process_audio] returns exactly when the filter stage returns,
    the input is not empty, and -- if the input peak is above zero -- the
    filtered buffer holds only finite samples. *)
Theorem process_audio_returns_iff :
  lfilter_length lfilter ->
  forall data fs cutoff,
    returns (process_audio butter lfilter data fs cutoff) <->
    exists filtered max_val,
      butter_lowpass_filter butter lfilter data cutoff fs default_order = Ok filtered /\
      np.max (np.abs data) = Ok max_val /\
      ((0 <? max_val) = true -> forallb np.isfinite filtered = true).
Proof.
  intros Hlen data fs cutoff. split.
  - intros [out H]. unfold process_audio in H.
    apply bind_ok in H. destruct H as [filtered [Hf Hg]].
    unfold gain_compensation in Hg.
    destruct (np.max (np.abs data)) as [m|e]; cbn [bind] in Hg; [|discriminate Hg].
    exists filtered, m. split; [exact Hf|]. split; [reflexivity|].
    intros Hpos. rewrite Hpos in Hg. unfold librosa.normalize in Hg.
    destruct (forallb np.isfinite filtered); [reflexivity | discriminate Hg].
  - intros [filtered [m [Hf [Hm Hfin]]]].
    pose proof (butter_lowpass_filter_length _ _ _ _ _ Hlen Hf) as Hl.
    unfold process_audio. rewrite Hf. cbn [bind].
    unfold gain_compensation. rewrite Hm. cbn [bind].
    destruct (0 <? m); [|eexists; reflexivity].
    unfold librosa.normalize. rewrite (Hfin eq_refl). cbn [negb].
    destruct data as [|d data]; [discriminate Hm|].
    destruct filtered as [|v filtered]; [discriminate Hl|].
    cbn [np.abs map np.max bind]. eexists. reflexivity.
Qed.

End PipelineOutcome.

(** X3 on [sample.tone]: the pipeline returns there. *)
Lemma process_audio_returns_iff_witness :
  returns (sample.run sample.tone sample.rate sample.cutoff).
Proof.
  assert (Hf : butter_lowpass_filter reference.butter reference.lfilter sample.tone
                 sample.cutoff sample.rate default_order = Ok sample.tone_filtered)
    by (vm_compute; reflexivity).
  apply (proj2 (process_audio_returns_iff reference.butter reference.lfilter
                  reference_lfilter_length sample.tone sample.rate sample.cutoff)).
  exists sample.tone_filtered, 1.
  split; [exact Hf|]. split; [reflexivity|]. intros _. vm_compute. reflexivity.
Defined.

(** ** Quotients below one *)

Section DivisionBelowOne.
Local Open Scope Z_scope.

Lemma sf_below_one_bounded : bounded prec emax 9007199254740991 (-53) = true.
Proof. reflexivity. Qed.

(** Dividing a positive number by a larger one gives at most the largest
    number below one. *)
Lemma div_lt_one (ma : positive) (ea : Z) (mb : positive) (eb : Z) :
  bounded prec emax ma ea = true -> bounded prec emax mb eb = true ->
  SFltb (S754_finite false ma ea) (S754_finite false mb eb) = true ->
  SFleb (SF64div (S754_finite false ma ea) (S754_finite false mb eb)) sf_below_one = true.
Proof.
  intros Ha Hb Hlt.
  pose proof (sf_ltb_leb _ _ Hlt) as Hle.
  destruct (leb_value _ _ _ _ Ha Hb Hle) as [Hee [Hv Hveq]].
  assert (Hstrict : Zpos ma < Zpos mb * 2 ^ (eb - ea)).
  { destruct (Z.eq_dec (Zpos ma) (Zpos mb * 2 ^ (eb - ea))) as [E|E]; [|lia].
    destruct (Hveq E) as [-> ->]. apply SFltb_pos in Hlt. lia. }
  destruct (bounded_digits _ _ Ha) as [_ [Hma53 _]].
  unfold SF64div, SFdiv. cbn [xorb].
  destruct (div_core_spec ma ea mb eb) as [l [Hcore Hl]]. cbv zeta in Hcore, Hl.
  rewrite Hcore. clear Hcore.
  destruct (div_shift_ok ma ea mb eb) as [Hshift _]. cbv zeta in Hshift.
  pose proof (digits2_pos_bounds ma) as [Halo Hahi].
  pose proof (digits2_pos_bounds mb) as [Hblo Hbhi].
  set (da := Zpos (digits2_pos ma)) in *. set (db := Zpos (digits2_pos mb)) in *.
  assert (Hda : 0 < da) by (unfold da; lia).
  assert (Hdb : 0 < db) by (unfold db; lia).
  set (e' := Z.min (fx (da + ea - (db + eb))) (ea - eb)) in *.
  set (s := ea - eb - e') in *.
  assert (Hs : 0 <= s) by (unfold s, e'; lia).
  assert (Hps : 0 < 2 ^ s) by now apply pow2_pos.
  assert (Hmag : da + ea <= db + eb).
  { assert (H : 2 ^ (da - 1) < 2 ^ (db + (eb - ea))).
    { rewrite pow2_split by lia.
      assert (0 < 2 ^ (eb - ea)) by (apply pow2_pos; lia). nia. }
    apply pow2_lt_inv in H; lia. }
  assert (He' : e' <= -53) by (unfold e', fx; lia).
  set (T := 2 ^ 53) in *.
  assert (HT : 1 < T) by reflexivity.
  set (K := 2 ^ (-53 - e')).
  assert (HK : 0 < K) by (apply pow2_pos; lia).
  assert (Hk : T * K = 2 ^ (eb - ea) * 2 ^ s).
  { unfold T, K. rewrite <- !pow2_split by lia. f_equal. unfold s. lia. }
  (* the dividend, scaled, against the divisor *)
  set (A := Zpos ma) in *. set (B := Zpos mb * 2 ^ (eb - ea)) in *.
  assert (HAB : A * T <= B * (T - 1)).
  { assert ((A + 1) * (T - 1) <= B * (T - 1)) by (apply Z.mul_le_mono_nonneg_r; lia).
    lia. }
  assert (Hnum : A * 2 ^ s <= Zpos mb * ((T - 1) * K)).
  { assert (H1 : T * (A * 2 ^ s) <= T * (Zpos mb * ((T - 1) * K))).
    { replace (T * (Zpos mb * ((T - 1) * K))) with (Zpos mb * (T - 1) * (T * K)) by ring.
      rewrite Hk.
      replace (Zpos mb * (T - 1) * (2 ^ (eb - ea) * 2 ^ s)) with (B * (T - 1) * 2 ^ s)
        by (unfold B; ring).
      replace (T * (A * 2 ^ s)) with (A * T * 2 ^ s) by ring.
      apply Z.mul_le_mono_nonneg_r; lia. }
    apply Z.mul_le_mono_pos_l in H1; lia. }
  set (q := A * 2 ^ s / Zpos mb) in *.
  assert (Hq0 : 0 <= q) by (apply Z.div_pos; unfold A; lia).
  assert (Hqle : q <= (T - 1) * K).
  { apply Z.div_le_upper_bound; lia. }
  assert (Hmy : Zpos 9007199254740991 = T - 1) by reflexivity.
  destruct (round_aux_le q e' l 9007199254740991 (-53)) as [H1 _].
  - exact Hq0.
  - exact Hshift.
  - exact sf_below_one_bounded.
  - exact He'.
  - rewrite Hmy. fold K.
    destruct (Z_lt_le_dec q ((T - 1) * K)) as [Hl1|Hge]; [left; exact Hl1|].
    right. split; [lia|]. apply Hl.
    assert (Hqe : q = (T - 1) * K) by lia.
    assert (Hmul : Zpos mb * q <= A * 2 ^ s).
    { unfold q. apply Z.mul_div_le. lia. }
    assert (Heqn : A * 2 ^ s = q * Zpos mb) by (rewrite Hqe in *; lia).
    fold A. rewrite Heqn. apply Z.mod_mul. lia.
  - exact H1.
Qed.

(** Rounding with the negative sign gives nothing that is at least one. *)
Lemma negative_round_below_one (m e : Z) (l : location) :
  SFleb sf_one (binary_round_aux prec emax true m e l) = false.
Proof.
  unfold binary_round_aux.
  destruct (shr_fexp prec emax m e l) as [mrs e1].
  destruct (shr_fexp prec emax _ e1 loc_Exact) as [mrs2 e2].
  unfold sf_one, SFleb.
  destruct (shr_m mrs2); cbn [SFcompare]; try reflexivity.
  destruct (e2 <=? emax - prec); cbn [SFcompare]; reflexivity.
Qed.

(** At most the largest number below one: not at least one. *)
Lemma below_one_not_geb (x : spec_float) :
  SFleb x sf_below_one = true -> SFleb sf_one x = false.
Proof.
  destruct x as [s|s| |s m e].
  - intros _. unfold sf_one, SFleb. cbn [SFcompare]. reflexivity.
  - destruct s; intros H.
    + unfold sf_one, SFleb. cbn [SFcompare]. reflexivity.
    + unfold sf_below_one, SFleb in H. cbn [SFcompare] in H. discriminate H.
  - intros _. unfold sf_one, SFleb; cbn [SFcompare]. reflexivity.
  - destruct s.
    + intros _. unfold sf_one, SFleb. cbn [SFcompare]. reflexivity.
    + intros H. unfold sf_below_one in H. apply SFleb_pos in H.
      assert (C : e <= -53) by (destruct H as [H|[H _]]; lia).
      clear H.
      destruct (SFleb sf_one (S754_finite false m e)) eqn:E; [|reflexivity].
      unfold sf_one in E. apply SFleb_pos in E.
      destruct E as [E|[E _]]; lia.
Qed.

End DivisionBelowOne.

(** A cutoff that is not at least the positive finite divisor has a quotient
    that is not at least one: a NaN, a negative number or zero, or a
    positive number whose quotient rounds to at most the largest number
    below one. *)
Lemma quotient_below_one (c nyq : float) :
  positive_finite nyq -> (nyq <=? c) = false -> (c / nyq >=? 1) = false.
Proof.
  unfold positive_finite, geb. rewrite !leb_spec, div_spec, one_spec.
  intros Hn H.
  destruct (Prim2SF nyq) as [[|]|[|]| |[|] mn en] eqn:En; cbn [sf_pos] in Hn;
    try contradiction.
  destruct (Prim2SF c) as [s|s| |s mc ec] eqn:Ec.
  - unfold SF64div. cbn [SFdiv]. unfold sf_one, SFleb. cbn [SFcompare]. reflexivity.
  - destruct s.
    + unfold SF64div. cbn [SFdiv xorb]. unfold sf_one, SFleb. cbn [SFcompare]. reflexivity.
    + unfold SFleb in H. cbn [SFcompare] in H. discriminate H.
  - unfold SF64div. cbn [SFdiv]. reflexivity.
  - destruct s.
    + unfold SF64div. cbn [SFdiv xorb].
      destruct (SFdiv_core_binary prec emax (Zpos mc) ec (Zpos mn) en) as [[mz ez] lz].
      apply negative_round_below_one.
    + destruct (SFltb (S754_finite false mc ec) (S754_finite false mn en)) eqn:L.
      * apply below_one_not_geb.
        apply div_lt_one; [exact (pos_bounded _ _ _ Ec) | exact (pos_bounded _ _ _ En) | exact L].
      * apply sf_leb_total in L; [congruence | exact I | exact I].
Qed.

Section ClampTheorem.

Variable butter : Z -> float -> result coeffs.
Variable lfilter : list float -> list float -> buffer -> result buffer.

(** X2 (the clamp fires exactly at half the sample rate).  When half the
    sample rate is finite and above zero, the test [normal_cutoff >= 1] on
    the binary64 quotient holds exactly when the cutoff is at least half the
    sample rate -- rounding takes no quotient across one, and a NaN cutoff
    is on the unclamped side -- so the stage calls [butter] at 0.99 for such
    a cutoff and at the quotient for every other. *)
Theorem clamp_exactly_at_nyquist :
  forall data cutoff fs order,
    is_finite (0.5 * fs) = true -> (0 <? 0.5 * fs) = true ->
    (cutoff / (0.5 * fs) >=? 1) = (0.5 * fs <=? cutoff) /\
    butter_lowpass_filter butter lfilter data cutoff fs order =
      (ba <- butter order (if 0.5 * fs <=? cutoff then 0.99 else cutoff / (0.5 * fs)) ;;
       lfilter (num ba) (den ba) data).
Proof.
  intros data cutoff fs order Hfin Hpos.
  pose proof (positive_finite_intro _ Hfin Hpos) as Pn.
  assert (Heq : (cutoff / (0.5 * fs) >=? 1) = (0.5 * fs <=? cutoff)).
  { destruct (0.5 * fs <=? cutoff) eqn:E.
    - now apply quotient_at_least_one.
    - now apply quotient_below_one. }
  split; [exact Heq|].
  rewrite (butter_lowpass_filter_unfold _ _ _ _ _ _ _
             (truediv_nonzero cutoff _ (positive_nonzero _ Pn))).
  now rewrite Heq.
Qed.

End ClampTheorem.

(** X2 at 44100 Hz: a cutoff of exactly 22050 Hz is clamped, the next
    binary64 number below 22050 is not. *)
Lemma clamp_exactly_at_nyquist_witness :
  (sample.filtered sample.tone sample.rate 22050 =
     (ba <- reference.butter default_order 0.99 ;;
      reference.lfilter (num ba) (den ba) sample.tone)) /\
  (sample.filtered sample.tone sample.rate 0x1.5887fffffffffp+14 =
     (ba <- reference.butter default_order (0x1.5887fffffffffp+14 / (0.5 * sample.rate)) ;;
      reference.lfilter (num ba) (den ba) sample.tone)).
Proof.
  split.
  - exact (proj2 (clamp_exactly_at_nyquist reference.butter reference.lfilter
                    sample.tone 22050 sample.rate default_order eq_refl eq_refl)).
  - exact (proj2 (clamp_exactly_at_nyquist reference.butter reference.lfilter
                    sample.tone 0x1.5887fffffffffp+14 sample.rate default_order
                    eq_refl eq_refl)).
Defined.

(** ** The default sample *)

Section DefaultSampleFacts.

Variable exists_ : String.string -> bool.

Lemma first_existing_some (paths : list String.string) (p : String.string) :
  first_existing exists_ paths = Some p ->
  exists before after,
    paths = before ++ p :: after /\ exists_ p = true /\
    forallb (fun q => negb (exists_ q)) before = true.
Proof.
  induction paths as [|q paths IH]; cbn [first_existing]; [discriminate|].
  destruct (exists_ q) eqn:E.
  - intros H. injection H as <-. exists [], paths. repeat split. exact E.
  - intros H. destruct (IH H) as [before [after [-> [Hp Hb]]]].
    exists (q :: before), after. repeat split; [exact Hp|].
    cbn [forallb]. now rewrite E, Hb.
Qed.

Lemma first_existing_none (paths : list String.string) :
  first_existing exists_ paths = None <->
  forall p, In p paths -> exists_ p = false.
Proof.
  induction paths as [|q paths IH]; cbn [first_existing].
  - split; [intros _ p [] | reflexivity].
  - destruct (exists_ q) eqn:E.
    + split; [discriminate|]. intros H. rewrite (H q (or_introl eq_refl)) in E.
      discriminate E.
    + rewrite IH. split.
      * intros H p [<-|Hp]; [exact E | now apply H].
      * intros H p Hp. apply H. now right.
Qed.

End DefaultSampleFacts.

(** X5 (the default sample).  [get_default_sample_path] returns [None]
    exactly when neither candidate exists; a path it returns is a candidate
    that exists, and every candidate listed before it does not exist -- so
    [Sample1.mp3] in the working directory wins over the one in the
    sub-directory. *)
Theorem default_sample_path_spec :
  forall exists_ : String.string -> bool,
    (get_default_sample_path exists_ = None <->
       forall p, In p possible_paths -> exists_ p = false) /\
    (forall p, get_default_sample_path exists_ = Some p ->
       exists before after,
         possible_paths = before ++ p :: after /\ exists_ p = true /\
         forallb (fun q => negb (exists_ q)) before = true).
Proof.
  intros exists_. split.
  - apply first_existing_none.
  - intros p. apply first_existing_some.
Qed.

(** ** The parameter panel *)

Section PanelFacts.

Lemma slider_values_range (v : Z) :
  In v ui.slider_values -> (500 <= v <= 10000)%Z.
Proof.
  unfold ui.slider_values. intros H. apply in_map_iff in H.
  destruct H as [k [<- Hk]]. apply in_seq in Hk. lia.
Qed.

Lemma selectable_range (c : Z) : In c selectable -> (500 <= c <= 15000)%Z.
Proof.
  unfold selectable. intros H. apply in_app_iff in H. destruct H as [H|H].
  - cbn [In] in H. lia.
  - apply slider_values_range in H. lia.
Qed.

(** Whatever the select box and the slider return, the panel yields one of
    the selectable cutoffs. *)
Lemma cutoff_freq_selectable (selected_age : String.string) (slider : Z) :
  In selected_age ui.options -> In slider ui.slider_values ->
  exists c, ui.cutoff_freq selected_age slider = Some c /\ In c selectable.
Proof.
  intros Ha Hs. unfold selectable.
  cbv [ui.options ui.age_map map fst In] in Ha.
  destruct Ha as [<-|[<-|[<-|[<-|[<-|[]]]]]].
  - exists 15000%Z. split; [reflexivity|]. apply in_app_iff. left. cbn [In]. tauto.
  - exists 6000%Z. split; [reflexivity|]. apply in_app_iff. left. cbn [In]. tauto.
  - exists 3000%Z. split; [reflexivity|]. apply in_app_iff. left. cbn [In]. tauto.
  - exists 1500%Z. split; [reflexivity|]. apply in_app_iff. left. cbn [In]. tauto.
  - exists slider. split; [reflexivity|]. apply in_app_iff. now right.
Qed.

(** Every selectable cutoff is, as a float, finite and at least 4. *)
Lemma selectable_floats :
  forallb (fun c => is_finite (float_of_int c) && (4 <=? float_of_int c)) selectable = true.
Proof. vm_compute. reflexivity. Qed.

Lemma selectable_float (c : Z) :
  In c selectable ->
  is_finite (float_of_int c) = true /\ (4 <=? float_of_int c) = true.
Proof.
  intros H. pose proof selectable_floats as F. rewrite forallb_forall in F.
  apply andb_true_iff. exact (F c H).
Qed.

End PanelFacts.

Section StageFromPanel.

Variable butter : Z -> float -> result coeffs.
Variable lfilter : list float -> list float -> buffer -> result buffer.

(** With a finite rate of at least 1 and a finite cutoff of at least 4 the
    stage reaches [lfilter] with a design. *)
Lemma stage_designs data cutoff fs order :
  butter_designs butter -> (0 < order)%Z ->
  is_finite fs = true -> (1 <=? fs) = true ->
  is_finite cutoff = true -> (4 <=? cutoff) = true ->
  exists ba,
    butter order (if cutoff / (0.5 * fs) >=? 1 then 0.99 else cutoff / (0.5 * fs)) = Ok ba /\
    butter_lowpass_filter butter lfilter data cutoff fs order =
      lfilter (num ba) (den ba) data.
Proof.
  intros Hdes Hord Hfs H1 Hc H4.
  destruct (nyquist_positive_finite fs Hfs H1) as [Pn [Hnz _]].
  pose proof (quotient_positive cutoff (0.5 * fs) Hc H4 Pn) as Hpos.
  rewrite (butter_lowpass_filter_unfold _ _ _ _ _ _ _ (truediv_nonzero cutoff _ Hnz)).
  set (nc := cutoff / (0.5 * fs)) in *.
  assert (Hin : (0 <? (if nc >=? 1 then 0.99 else nc)) = true /\
                ((if nc >=? 1 then 0.99 else nc) <? 1) = true).
  { destruct (nc >=? 1) eqn:E.
    - exact clamp_value_in_range.
    - split; [exact Hpos|]. apply not_geb_ltb; [|reflexivity|exact E].
      exact (ltb_not_nan_r _ _ Hpos). }
  destruct Hin as [H0 H1'].
  destruct (Hdes order _ Hord H0 H1') as [ba Hba].
  exists ba. split; [exact Hba|]. rewrite Hba. reflexivity.
Qed.

(** X8 (the panel never breaks the filter design).  For every entry of the
    select box, every position of the slider and every finite sample rate
    of at least 1, the filter stage called with the panel's cutoff neither
    divides by zero nor has its design rejected: [butter] returns
    coefficients, and the stage is [lfilter] on them. *)
Theorem panel_cutoff_designs :
  butter_designs butter ->
  forall selected_age slider data fs,
    In selected_age ui.options -> In slider ui.slider_values ->
    is_finite fs = true -> (1 <=? fs) = true ->
    exists cutoff_freq ba,
      ui.cutoff_freq selected_age slider = Some cutoff_freq /\
      butter default_order
        (if float_of_int cutoff_freq / (0.5 * fs) >=? 1 then 0.99
         else float_of_int cutoff_freq / (0.5 * fs)) = Ok ba /\
      butter_lowpass_filter butter lfilter data (float_of_int cutoff_freq) fs
        default_order = lfilter (num ba) (den ba) data.
Proof.
  intros Hdes selected_age slider data fs Ha Hs Hfs H1.
  destruct (cutoff_freq_selectable selected_age slider Ha Hs) as [c [Hc Hin]].
  destruct (selectable_float c Hin) as [Hfin H4].
  destruct (stage_designs data (float_of_int c) fs default_order Hdes eq_refl
              Hfs H1 Hfin H4) as [ba [Hba Hst]].
  exists c, ba. split; [exact Hc|]. split; [exact Hba | exact Hst].
Qed.

End StageFromPanel.

(** X7 (the cutoffs of the panel).  Whatever entry of the select box and
    position of the slider, the lookup does not fail and the cutoff lies
    between 500 and 15000 Hz: the 0 stored under the custom entry is never
    what the pipeline gets. *)
Theorem panel_cutoff_range :
  forall selected_age slider,
    In selected_age ui.options -> In slider ui.slider_values ->
    exists cutoff_freq,
      ui.cutoff_freq selected_age slider = Some cutoff_freq /\
      (500 <= cutoff_freq <= 15000)%Z.
Proof.
  intros selected_age slider Ha Hs.
  destruct (cutoff_freq_selectable selected_age slider Ha Hs) as [c [Hc Hin]].
  exists c. split; [exact Hc | now apply selectable_range].
Qed.

Lemma custom_in_options : In ui.custom ui.options.
Proof. cbv [ui.options ui.age_map map fst In]. tauto. Qed.

Lemma default_slider_in_values : In 2000%Z ui.slider_values.
Proof.
  unfold ui.slider_values. apply in_map_iff. exists 15%nat.
  split; [reflexivity|]. apply in_seq. lia.
Qed.

(** X7 on the custom entry with the slider at its default, 2000 Hz. *)
Lemma panel_cutoff_range_witness :
  exists cutoff_freq,
    ui.cutoff_freq ui.custom 2000 = Some cutoff_freq /\
    (500 <= cutoff_freq <= 15000)%Z.
Proof.
  exact (panel_cutoff_range ui.custom 2000 custom_in_options default_slider_in_values).
Defined.

(** X8 on the custom entry at 2000 Hz, [sample.tone] at 44100 Hz. *)
Lemma panel_cutoff_designs_witness :
  exists cutoff_freq ba,
    ui.cutoff_freq ui.custom 2000 = Some cutoff_freq /\
    reference.butter default_order
      (if float_of_int cutoff_freq / (0.5 * sample.rate) >=? 1 then 0.99
       else float_of_int cutoff_freq / (0.5 * sample.rate)) = Ok ba /\
    butter_lowpass_filter reference.butter reference.lfilter sample.tone
      (float_of_int cutoff_freq) sample.rate default_order =
      reference.lfilter (num ba) (den ba) sample.tone.
Proof.
  exact (panel_cutoff_designs reference.butter reference.lfilter
           reference_butter_designs ui.custom 2000 sample.tone sample.rate
           custom_in_options default_slider_in_values eq_refl eq_refl).
Defined.

(** ** The stored result *)

Section StoredResult.

Local Open Scope string_scope.

Variable butter : Z -> float -> result coeffs.
Variable lfilter : list float -> list float -> buffer -> result buffer.
Variable load_audio_data : bytes -> result (buffer * float).
Variable sf_write : buffer -> float -> result bytes.

Lemma process_and_store_stored content data fs selected_age cutoff_freq s s' :
  load_audio_data content = Ok (data, fs) ->
  process_and_store butter lfilter sf_write data fs selected_age cutoff_freq s = Ok s' ->
  stored butter lfilter load_audio_data sf_write s'.
Proof.
  intros Hload H. unfold process_and_store in H.
  apply bind_ok in H. destruct H as [filtered_data [Hp H]].
  apply bind_ok in H. destruct H as [out_io [Hw H]].
  injection H as <-.
  exists selected_age, cutoff_freq, filtered_data, out_io, content, data, fs.
  repeat split; try reflexivity; assumption.
Qed.

Lemma run_script_keeps (i : inputs) (s : session_state) :
  blank s \/ stored butter lfilter load_audio_data sf_write s ->
  blank (run_script butter lfilter load_audio_data sf_write i s) \/
  stored butter lfilter load_audio_data sf_write
    (run_script butter lfilter load_audio_data sf_write i s).
Proof.
  intros H. unfold run_script.
  destruct (file_bytes i) as [[|b content]|]; [exact H| |exact H].
  destruct (load_audio_data (b :: content)) as [[data fs]|e] eqn:Hload; [|exact H].
  destruct (process_btn i); [|exact H].
  destruct (ui.cutoff_freq (selected_age i) (slider i)) as [c|]; [|exact H].
  destruct (process_and_store butter lfilter sf_write data fs (selected_age i) c s)
    as [s'|e] eqn:Hs; [|exact H].
  right. exact (process_and_store_stored _ _ _ _ _ _ _ Hload Hs).
Qed.

Lemma reachable_blank_or_stored (s : session_state) :
  reachable butter lfilter load_audio_data sf_write s -> blank s \/ stored butter lfilter load_audio_data sf_write s.
Proof.
  induction 1 as [|i s _ IH].
  - left. repeat split.
  - now apply run_script_keeps.
Qed.

(** X9 (the stored result is of one piece).  In every state the script
    reaches from an empty session, if ['result_data'] is present then so are
    ['result_params'] and ['result_audio'], so the reads of the
    visualisation cannot fail; and the buffer shown is what [process_audio]
    returned, on some loaded audio, at the cutoff shown with it -- whatever
    the panel says by now. *)
Theorem stored_result_consistent :
  forall s,
    reachable butter lfilter load_audio_data sf_write s ->
    contains s "result_data" = true ->
    exists cutoff_freq filtered_data content data fs,
      shown_cutoff s = Some cutoff_freq /\
      shown_data s = Some filtered_data /\
      contains s "result_audio" = true /\
      load_audio_data content = Ok (data, fs) /\
      process_audio butter lfilter data fs (float_of_int cutoff_freq) = Ok filtered_data.
Proof.
  intros s Hr Hc.
  destruct (reachable_blank_or_stored s Hr) as [[_ [Hd _]]|Hs].
  - unfold contains in Hc. rewrite Hd in Hc. discriminate Hc.
  - destruct Hs as [age [c [filtered [wav [content [data [fs [Hp [Hd [Ha [Hl [Hpa _]]]]]]]]]]]].
    exists c, filtered, content, data, fs.
    unfold shown_cutoff, shown_data, contains. rewrite Hp, Hd, Ha.
    repeat split; assumption.
Qed.

End StoredResult.

Section StoredResultExample.

Local Open Scope string_scope.

(** X9 on [visit.state]: the result stored by the first run is still shown
    after the second, with the cutoff of the first, 3000 Hz. *)
Lemma stored_result_consistent_witness :
  exists cutoff_freq filtered_data content data fs,
    shown_cutoff visit.state = Some cutoff_freq /\
    shown_data visit.state = Some filtered_data /\
    contains visit.state "result_audio" = true /\
    visit.load content = Ok (data, fs) /\
    process_audio reference.butter reference.lfilter data fs (float_of_int cutoff_freq) =
      Ok filtered_data.
Proof.
  assert (Hc : contains visit.state "result_data" = true) by (vm_compute; reflexivity).
  exact (stored_result_consistent reference.butter reference.lfilter visit.load
           visit.write visit.state
           (reachable_run _ _ _ _ visit.second _
              (reachable_run _ _ _ _ visit.first _ (reachable_start _ _ _ _))) Hc).
Defined.

End StoredResultExample.
